(** * Statistics calculator of the log analyzer (src/log-analyzer/js/stats.js)

    A shallow embedding of [StatsCalculator]: the per-session reducer
    ([processEvent], [calculateSessionStats]), the aggregation over sessions
    ([calculateAggregateStats]) and the two order-detail extractions
    ([extractOrderDetails], [extractOrdersBySession]).

    Conventions of the embedding.
    - A payload value is a JavaScript number, boolean or string, or is
      absent ([VUndef]); [VNull] is the literal [null] the code stores.
    - JavaScript numbers are IEEE doubles.  Payload numbers are the decimals
      of a log line; they and the sums built from them are kept as exact
      rationals ([Qc]), so rounding, overflow and the sign of zero are
      outside the model.  The special values NaN and the infinities are kept,
      since [parseFloat] produces them and [||] tests for them.
    - Counters incremented with [++] are natural numbers.
    - A method call on a value that has no such method (a number or boolean
      where the code calls [.includes]) throws a TypeError: functions that can
      reach such a call return a [result].
    - Timestamps ([Date] objects) are milliseconds as integers. *)

From Stdlib Require Import Ascii String QArith Qcanon Sorted.
From stdpp Require Import gmap strings list fin_maps pretty.

Local Open Scope string_scope.
Local Open Scope list_scope.

(** ** JavaScript values *)

Module JS.

(** A number: finite (exact), an infinity, or NaN. *)
Inductive number : Type :=
  | Fin (q : Qc)
  | PosInf
  | NegInf
  | NaN.

Global Instance number_eq_dec : EqDecision number.
Proof. solve_decision. Defined.

Definition zero : number := Fin (Q2Qc 0).

(** [a + b] on numbers. *)
Definition add (a b : number) : number :=
  match a, b with
  | NaN, _ | _, NaN => NaN
  | PosInf, NegInf | NegInf, PosInf => NaN
  | PosInf, _ | _, PosInf => PosInf
  | NegInf, _ | _, NegInf => NegInf
  | Fin x, Fin y => Fin (x + y)%Qc
  end.

(** ToBoolean on a number: NaN and zero are falsy. *)
Definition number_truthy (n : number) : bool :=
  match n with
  | Fin q => negb (bool_decide (q = Q2Qc 0))
  | PosInf | NegInf => true
  | NaN => false
  end.

(** [a || b] on numbers. *)
Definition number_or (a b : number) : number :=
  if number_truthy a then a else b.

Inductive value : Type :=
  | VUndef
  | VNull
  | VNum (q : Qc)
  | VBool (b : bool)
  | VStr (s : string).

Global Instance value_eq_dec : EqDecision value.
Proof. solve_decision. Defined.

(** ToBoolean. *)
Definition truthy (v : value) : bool :=
  match v with
  | VUndef | VNull => false
  | VNum q => negb (bool_decide (q = Q2Qc 0))
  | VBool b => b
  | VStr s => negb (bool_decide (s = ""))
  end.

(** [a || b] *)
Definition or (a b : value) : value := if truthy a then a else b.

(** [a === b]; payload numbers are finite, so strict equality is identity. *)
Definition strict_eq (a b : value) : bool := bool_decide (a = b).

(** [String.prototype.includes] *)
Fixpoint includes (needle s : string) : bool :=
  if String.prefix needle s then true
  else match s with
       | EmptyString => false
       | String _ s' => includes needle s'
       end.

(** [msg && msg.includes(needle)] in a boolean position, [msg] a string. *)
Definition msg_includes (msg needle : string) : bool :=
  negb (bool_decide (msg = "")) && includes needle msg.

Inductive error : Type := TypeError.

Inductive result (A : Type) : Type :=
  | Ok (a : A)
  | Throw (e : error).
Global Arguments Ok {A} a.
Global Arguments Throw {A} e.

Global Instance result_ret : MRet result := @Ok.
Global Instance result_bind : MBind result := λ A B f m,
  match m with Ok a => f a | Throw e => Throw e end.

(** [v.includes(needle)]: only strings have the method. *)
Definition val_includes (v : value) (needle : string) : result bool :=
  match v with
  | VStr s => Ok (includes needle s)
  | _ => Throw TypeError
  end.

(** [v && v.includes(needle)] in a boolean position. *)
Definition guarded_includes (v : value) (needle : string) : result bool :=
  if truthy v then val_includes v needle else Ok false.

(** *** [parseFloat] *)

Definition digit_of (c : ascii) : option Z :=
  let n := Z.of_nat (nat_of_ascii c) in
  if ((48 <=? n) && (n <=? 57))%Z then Some (n - 48)%Z else None.

(** Reads a run of decimal digits: the accumulated value, the number of
    digits read and the rest of the string. *)
Fixpoint read_digits (s : string) (acc : Z) (count : nat) : Z * nat * string :=
  match s with
  | String c s' =>
      match digit_of c with
      | Some d => read_digits s' (10 * acc + d)%Z (S count)
      | None => (acc, count, s)
      end
  | EmptyString => (acc, count, s)
  end.

Definition is_space (c : ascii) : bool :=
  let n := nat_of_ascii c in
  ((n =? 32) || ((9 <=? n) && (n <=? 13)))%nat.

Fixpoint skip_ws (s : string) : string :=
  match s with
  | String c s' => if is_space c then skip_ws s' else s
  | EmptyString => s
  end.

(** An optional sign: [true] for a minus. *)
Definition read_sign (s : string) : bool * string :=
  match s with
  | String "-" s' => (true, s')
  | String "+" s' => (false, s')
  | _ => (false, s)
  end.

(** An exponent part, when it is complete; 0 otherwise. *)
Definition read_exponent (s : string) : Z :=
  match s with
  | String c s' =>
      if bool_decide (c = "e"%char) || bool_decide (c = "E"%char) then
        let (neg, s'') := read_sign s' in
        let '(v, n, _) := read_digits s'' 0 0 in
        if (n =? 0)%nat then 0%Z else if neg then (- v)%Z else v
      else 0%Z
  | EmptyString => 0%Z
  end.

(** [parseFloat] of a string: the longest prefix, after leading white space,
    that is a decimal literal. *)
Definition parseFloat_string (s : string) : number :=
  let (neg, s2) := read_sign (skip_ws s) in
  if String.prefix "Infinity" s2 then (if neg then NegInf else PosInf)
  else
    let '(ip, ni, s3) := read_digits s2 0 0 in
    let '(m, nf, s4) :=
      match s3 with
      | String "." s3' => read_digits s3' ip 0
      | _ => (ip, 0%nat, s3)
      end in
    if (ni + nf =? 0)%nat then NaN
    else
      let e := (read_exponent s4 - Z.of_nat nf)%Z in
      let m' := if neg then (- m)%Z else m in
      Fin (Q2Qc (inject_Z m' * Qpower (inject_Z 10) e)).

(** *** ToString *)

Fixpoint frac_digits (fuel : nat) (r d : Z) : string :=
  match fuel with
  | O => ""
  | S fuel' =>
      if (r =? 0)%Z then ""
      else pretty ((10 * r) / d)%Z +:+ frac_digits fuel' ((10 * r) mod d)%Z d
  end.

(** Number::toString, as a plain decimal expansion: the digits JavaScript
    prints for a decimal of at most 17 significant digits whose magnitude lies
    in [1e-6, 1e21). *)
Definition number_to_string (q : Qc) : string :=
  let n := Qnum q in
  let d := Zpos (Qden q) in
  let a := Z.abs n in
  let r := (a mod d)%Z in
  (if (n <? 0)%Z then "-" else "") +:+ pretty (a / d)%Z +:+
  (if (r =? 0)%Z then "" else "." +:+ frac_digits 20 r d).

(** ToString of a value, as used for a property key. *)
Definition to_string (v : value) : string :=
  match v with
  | VUndef => "undefined"
  | VNull => "null"
  | VNum q => number_to_string q
  | VBool true => "true"
  | VBool false => "false"
  | VStr s => s
  end.

(** [parseFloat(v)]: the argument is first converted to a string. *)
Definition parseFloat (v : value) : number :=
  match v with
  | VNum q => Fin q
  | VStr s => parseFloat_string s
  | VUndef | VNull | VBool _ => NaN
  end.

End JS.
Export JS.

(** ** Data model *)

Inductive Category : Type := LIFECYCLE | AUDIT.

(** One parsed log line.  [message] is text, falsy when empty; [data] is the
    key-value payload, where a key that is not there reads as [undefined]. *)
Record LogEvent : Type := {
  timestamp : Z;
  level : string;
  module_ : string;
  category : option Category;
  subcategory : option string;
  asset : option string;
  message : string;
  data : gmap string value
}.

(** [event.data.key] *)
Definition field (event : LogEvent) (key : string) : value :=
  default VUndef (data event !! key).

(** Modelled from the spec: the class StrategySession is not among the
    sources.  A session has an asset, a start time, an end time when a stop
    marker was seen, its events in encounter order, and a duration
    (a derived attribute: end minus start, in milliseconds). *)
Record StrategySession : Type := {
  s_asset : string;
  s_startTime : Z;
  s_endTime : option Z;
  s_events : list LogEvent;
  s_duration : Z
}.

Record OrderPairs : Type := {
  attempted : nat;
  succeeded : nat
}.

Record Orders : Type := {
  orders_total : nat;
  orders_accepted : nat;
  orders_rejected : nat;
  latencies : list value
}.

Record Fills : Type := {
  fills_total : nat;
  fills_partial : nat;
  fills_full : nat;
  totalQty : number;
  usdtQty : number;
  usdcQty : number;
  prices : list number
}.

Record FastChase : Type := {
  fc_events : nat;
  fc_successes : nat;
  retries : list value;
  fallbackReasons : gmap string nat
}.

Record Errors : Type := {
  gtxRejections : nat;
  apiErrors : nat;
  timeouts : nat;
  other : nat
}.

(** Modelled from the spec: the class SessionStats is not among the
    sources.  Its stored fields are the counters, sample lists and the
    fallback-reason mapping of the spec's data model; the derived rates and
    averages are computed on demand and are not stored. *)
Record SessionStats : Type := {
  runtime : Z;
  spreadTriggers : nat;
  orderPairs : OrderPairs;
  orders : Orders;
  fills : Fills;
  fastChase : FastChase;
  errors : Errors
}.

(** Modelled from the spec: [new SessionStats()], every counter and total
    at zero, every sample list and the fallback-reason mapping empty. *)
Definition new_SessionStats : SessionStats := {|
  runtime := 0;
  spreadTriggers := 0;
  orderPairs := {| attempted := 0; succeeded := 0 |};
  orders := {| orders_total := 0; orders_accepted := 0; orders_rejected := 0;
               latencies := [] |};
  fills := {| fills_total := 0; fills_partial := 0; fills_full := 0;
              totalQty := zero; usdtQty := zero; usdcQty := zero;
              prices := [] |};
  fastChase := {| fc_events := 0; fc_successes := 0; retries := [];
                  fallbackReasons := ∅ |};
  errors := {| gtxRejections := 0; apiErrors := 0; timeouts := 0; other := 0 |}
|}.

(** *** Field updates of the statistics object *)

Definition set_runtime (x : Z) (s : SessionStats) : SessionStats :=
  {| runtime := x; spreadTriggers := spreadTriggers s;
     orderPairs := orderPairs s; orders := orders s; fills := fills s;
     fastChase := fastChase s; errors := errors s |}.

Definition set_spreadTriggers (x : nat) (s : SessionStats) : SessionStats :=
  {| runtime := runtime s; spreadTriggers := x;
     orderPairs := orderPairs s; orders := orders s; fills := fills s;
     fastChase := fastChase s; errors := errors s |}.

Definition set_orderPairs (x : OrderPairs) (s : SessionStats) : SessionStats :=
  {| runtime := runtime s; spreadTriggers := spreadTriggers s;
     orderPairs := x; orders := orders s; fills := fills s;
     fastChase := fastChase s; errors := errors s |}.

Definition set_orders (x : Orders) (s : SessionStats) : SessionStats :=
  {| runtime := runtime s; spreadTriggers := spreadTriggers s;
     orderPairs := orderPairs s; orders := x; fills := fills s;
     fastChase := fastChase s; errors := errors s |}.

Definition set_fills (x : Fills) (s : SessionStats) : SessionStats :=
  {| runtime := runtime s; spreadTriggers := spreadTriggers s;
     orderPairs := orderPairs s; orders := orders s; fills := x;
     fastChase := fastChase s; errors := errors s |}.

Definition set_fastChase (x : FastChase) (s : SessionStats) : SessionStats :=
  {| runtime := runtime s; spreadTriggers := spreadTriggers s;
     orderPairs := orderPairs s; orders := orders s; fills := fills s;
     fastChase := x; errors := errors s |}.

Definition set_errors (x : Errors) (s : SessionStats) : SessionStats :=
  {| runtime := runtime s; spreadTriggers := spreadTriggers s;
     orderPairs := orderPairs s; orders := orders s; fills := fills s;
     fastChase := fastChase s; errors := x |}.

(** [stats.orders.total++] and the like. *)
Definition incr_orders_total (o : Orders) : Orders :=
  {| orders_total := S (orders_total o); orders_accepted := orders_accepted o;
     orders_rejected := orders_rejected o; latencies := latencies o |}.

Definition incr_orders_accepted (o : Orders) : Orders :=
  {| orders_total := orders_total o; orders_accepted := S (orders_accepted o);
     orders_rejected := orders_rejected o; latencies := latencies o |}.

Definition incr_orders_rejected (o : Orders) : Orders :=
  {| orders_total := orders_total o; orders_accepted := orders_accepted o;
     orders_rejected := S (orders_rejected o); latencies := latencies o |}.

Definition push_latency (v : value) (o : Orders) : Orders :=
  {| orders_total := orders_total o; orders_accepted := orders_accepted o;
     orders_rejected := orders_rejected o; latencies := latencies o ++ [v] |}.

Definition incr_gtxRejections (e : Errors) : Errors :=
  {| gtxRejections := S (gtxRejections e); apiErrors := apiErrors e;
     timeouts := timeouts e; other := other e |}.

Definition incr_apiErrors (e : Errors) : Errors :=
  {| gtxRejections := gtxRejections e; apiErrors := S (apiErrors e);
     timeouts := timeouts e; other := other e |}.

Definition incr_timeouts (e : Errors) : Errors :=
  {| gtxRejections := gtxRejections e; apiErrors := apiErrors e;
     timeouts := S (timeouts e); other := other e |}.

Definition incr_other (e : Errors) : Errors :=
  {| gtxRejections := gtxRejections e; apiErrors := apiErrors e;
     timeouts := timeouts e; other := S (other e) |}.

(** ** The correlation tables *)

(** A JavaScript [Map] keyed by payload values: entries in insertion order,
    keys compared by identity of the value. *)
Abbreviation JSMap V := (list (value * V)).

Fixpoint Map_get {V} (k : value) (m : JSMap V) : option V :=
  match m with
  | [] => None
  | (k', v) :: m' => if decide (k' = k) then Some v else Map_get k m'
  end.

Definition Map_has {V} (k : value) (m : JSMap V) : bool :=
  match Map_get k m with Some _ => true | None => false end.

(** [m.set(k, v)]: an existing key keeps its place, a new one goes last. *)
Fixpoint Map_set {V} (k : value) (v : V) (m : JSMap V) : JSMap V :=
  match m with
  | [] => [(k, v)]
  | (k', v') :: m' =>
      if decide (k' = k) then (k, v) :: m' else (k', v') :: Map_set k v m'
  end.

(** An entry of the order table. *)
Record OrderInfo : Type := {
  oi_symbol : value;
  oi_side : value;
  oi_qty : value;
  oi_price : value;
  oi_status : string;
  oi_timestamp : Z;
  oi_pairId : value
}.

Definition set_oi_status (st : string) (o : OrderInfo) : OrderInfo :=
  {| oi_symbol := oi_symbol o; oi_side := oi_side o; oi_qty := oi_qty o;
     oi_price := oi_price o; oi_status := st; oi_timestamp := oi_timestamp o;
     oi_pairId := oi_pairId o |}.

(** An entry of the pair table. *)
Record PairInfo : Type := {
  usdtFilled : bool;
  usdcFilled : bool
}.

(** What [processEvent] reads and mutates. *)
Record State : Type := {
  stats : SessionStats;
  orderMap : JSMap OrderInfo;
  pairMap : JSMap PairInfo
}.

Definition set_stats (x : SessionStats) (st : State) : State :=
  {| stats := x; orderMap := orderMap st; pairMap := pairMap st |}.

Definition set_orderMap (x : JSMap OrderInfo) (st : State) : State :=
  {| stats := stats st; orderMap := x; pairMap := pairMap st |}.

Definition set_pairMap (x : JSMap PairInfo) (st : State) : State :=
  {| stats := stats st; orderMap := orderMap st; pairMap := x |}.

(** [if (!pairMap.has(id)) pairMap.set(id, {usdtFilled: false, usdcFilled: false})] *)
Definition ensurePair (id : value) (pm : JSMap PairInfo) : JSMap PairInfo :=
  if Map_has id pm then pm
  else Map_set id {| usdtFilled := false; usdcFilled := false |} pm.

(** ** [processEvent] *)

(** The arms of [switch (event.subcategory)]. *)
Inductive Case : Type :=
  | CASE_SPREAD_MET | CASE_ORDER_SUBMIT | CASE_ORDER_RESPONSE
  | CASE_ORDER_FILL | CASE_PARALLEL_ORDER | CASE_PAIR_LINK | CASE_FAST_CHASE
  | CASE_BALANCE | CASE_ORDER_STATE | CASE_ORDER_CANCEL | CASE_ORDER_TIMEOUT
  | CASE_default.

Definition switch_subcategory (sub : option string) : Case :=
  match sub with
  | None => CASE_default
  | Some s =>
      if bool_decide (s = "SPREAD_MET") then CASE_SPREAD_MET
      else if bool_decide (s = "ORDER_SUBMIT") then CASE_ORDER_SUBMIT
      else if bool_decide (s = "ORDER_RESPONSE") then CASE_ORDER_RESPONSE
      else if bool_decide (s = "ORDER_FILL") then CASE_ORDER_FILL
      else if bool_decide (s = "PARALLEL_ORDER") then CASE_PARALLEL_ORDER
      else if bool_decide (s = "PAIR_LINK") then CASE_PAIR_LINK
      else if bool_decide (s = "FAST_CHASE") then CASE_FAST_CHASE
      else if bool_decide (s = "BALANCE") then CASE_BALANCE
      else if bool_decide (s = "ORDER_STATE") then CASE_ORDER_STATE
      else if bool_decide (s = "ORDER_CANCEL") then CASE_ORDER_CANCEL
      else if bool_decide (s = "ORDER_TIMEOUT") then CASE_ORDER_TIMEOUT
      else CASE_default
  end.

(** [processFastChaseEvent] *)
Definition processFastChaseEvent (event : LogEvent) (s : SessionStats)
  : SessionStats :=
  let msg := message event in
  let fc := fastChase s in
  if includes "Entering fast chase mode" msg then
    set_fastChase {| fc_events := S (fc_events fc);
                     fc_successes := fc_successes fc; retries := retries fc;
                     fallbackReasons := fallbackReasons fc |} s
  else if includes "Fast chase completed successfully" msg then
    set_fastChase {| fc_events := fc_events fc;
                     fc_successes := S (fc_successes fc);
                     retries :=
                       if bool_decide (field event "retry_count" = VUndef)
                       then retries fc
                       else retries fc ++ [field event "retry_count"];
                     fallbackReasons := fallbackReasons fc |} s
  else if includes "fallback" msg || includes "Fallback" msg
          || includes "FALLBACK" msg then
    let reason := to_string (or (field event "reason") (VStr "unknown")) in
    set_fastChase {| fc_events := fc_events fc;
                     fc_successes := fc_successes fc; retries := retries fc;
                     fallbackReasons :=
                       <[reason := default 0 (fallbackReasons fc !! reason) + 1]>
                         (fallbackReasons fc) |} s
  else s.

(** The [ORDER_SUBMIT] arm. *)
Definition processOrderSubmit (event : LogEvent) (st : State) : State :=
  let st1 := set_stats (set_orders (incr_orders_total (orders (stats st)))
                          (stats st)) st in
  if truthy (field event "order_id") then
    set_orderMap
      (Map_set (field event "order_id")
         {| oi_symbol := field event "symbol"; oi_side := field event "side";
            oi_qty := field event "qty"; oi_price := field event "price";
            oi_status := "pending"; oi_timestamp := timestamp event;
            oi_pairId := field event "pair_id" |}
         (orderMap st1)) st1
  else st1.

Definition count_accepted (s : SessionStats) : SessionStats :=
  set_orders (incr_orders_accepted (orders s)) s.

Definition count_rejected (s : SessionStats) : SessionStats :=
  set_orders (incr_orders_rejected (orders s)) s.

Definition count_gtx (s : SessionStats) : SessionStats :=
  set_errors (incr_gtxRejections (errors s)) s.

(** The [ORDER_RESPONSE] arm. *)
Definition processOrderResponse (event : LogEvent) (st : State) : result State :=
  let s1 :=
    if truthy (field event "latency_ms")
    then set_orders (push_latency (field event "latency_ms") (orders (stats st)))
           (stats st)
    else stats st in
  let isAccepted := msg_includes (message event) "Order accepted" in
  let isRejected := msg_includes (message event) "Order rejected" in
  let orderId := field event "order_id" in
  if truthy orderId then
    match Map_get orderId (orderMap st) with
    | Some order =>
        if isAccepted || strict_eq (field event "status") (VStr "accepted")
           || strict_eq (field event "status") (VStr "NEW") then
          Ok {| stats := count_accepted s1;
                orderMap := Map_set orderId (set_oi_status "accepted" order)
                              (orderMap st);
                pairMap := pairMap st |}
        else if isRejected then
          let om := Map_set orderId (set_oi_status "rejected" order)
                      (orderMap st) in
          let s2 := count_rejected s1 in
          guarded_includes (field event "error") "GTX" ≫= λ inError : bool,
          if inError then
            Ok {| stats := count_gtx s2; orderMap := om; pairMap := pairMap st |}
          else if msg_includes (message event) "GTX" then
            Ok {| stats := count_gtx s2; orderMap := om; pairMap := pairMap st |}
          else
            Ok {| stats := s2; orderMap := om; pairMap := pairMap st |}
        else Ok (set_stats s1 st)
    | None =>
        if isAccepted then Ok (set_stats (count_accepted s1) st)
        else if isRejected then
          let s2 := count_rejected s1 in
          guarded_includes (field event "error") "GTX" ≫= λ inError : bool,
          if inError || msg_includes (message event) "GTX" then
            Ok (set_stats (count_gtx s2) st)
          else Ok (set_stats s2 st)
        else Ok (set_stats s1 st)
    end
  else Ok (set_stats s1 st).

(** [parseFloat(last_filled) || parseFloat(filled) || parseFloat(qty) || 0] *)
Definition filledQty_of (event : LogEvent) : number :=
  number_or
    (number_or
       (number_or (parseFloat (field event "last_filled"))
                  (parseFloat (field event "filled")))
       (parseFloat (field event "qty")))
    zero.

(** The symbol a fill is attributed by: the payload's, else the one the
    message names. *)
Definition fill_symbol (event : LogEvent) : value :=
  let symbol := or (field event "symbol") (VStr "") in
  if negb (truthy symbol) && negb (bool_decide (message event = "")) then
    if includes "USDT order filled" (message event) then VStr "USDT"
    else if includes "USDC order filled" (message event) then VStr "USDC"
    else symbol
  else symbol.

(** The price sample of a fill, if any. *)
Definition fill_price_sample (event : LogEvent) : list number :=
  if truthy (field event "price") then [parseFloat (field event "price")]
  else if truthy (field event "last_price")
  then [parseFloat (field event "last_price")]
  else if truthy (field event "fill_price")
  then [parseFloat (field event "fill_price")]
  else [].

(** The counters, totals and price sample of a fill (lines 102-144), given
    which bucket the symbol selects. *)
Definition recordFill (event : LogEvent) (isUsdt isUsdc : bool) (f : Fills)
  : Fills :=
  let isPartial := msg_includes (message event) "Partial fill" in
  let partialFill :=
    isPartial || strict_eq (field event "fill_type") (VStr "partial") in
  let filledQty := filledQty_of event in
  {| fills_total := S (fills_total f);
     fills_partial := if partialFill then S (fills_partial f) else fills_partial f;
     fills_full := if partialFill then fills_full f else S (fills_full f);
     totalQty := add (totalQty f) filledQty;
     usdtQty := if isUsdt then add (usdtQty f) filledQty else usdtQty f;
     usdcQty := if isUsdc then add (usdcQty f) filledQty else usdcQty f;
     prices := prices f ++ fill_price_sample event |}.

(** The update of the order's status and of its pair (lines 146-165). *)
Definition correlateFill (event : LogEvent) (st : State) : result State :=
  let isPartial := msg_includes (message event) "Partial fill" in
  let orderId := field event "order_id" in
  if truthy orderId then
    match Map_get orderId (orderMap st) with
    | Some order =>
        let om := Map_set orderId
                    (set_oi_status (if isPartial then "partial" else "filled")
                       order) (orderMap st) in
        if truthy (oi_pairId order) then
          let pm := ensurePair (oi_pairId order) (pairMap st) in
          match Map_get (oi_pairId order) pm with
          | Some pr =>
              guarded_includes (oi_symbol order) "USDT" ≫= λ legUsdt : bool,
              (if legUsdt then Ok false
               else guarded_includes (oi_symbol order) "USDC")
                ≫= λ legUsdc : bool,
              let pr' :=
                if legUsdt
                then {| usdtFilled := true; usdcFilled := usdcFilled pr |}
                else if legUsdc
                then {| usdtFilled := usdtFilled pr; usdcFilled := true |}
                else pr in
              Ok {| stats := stats st; orderMap := om;
                    pairMap := Map_set (oi_pairId order) pr' pm |}
          | None => Throw TypeError
          end
        else Ok (set_orderMap om st)
    | None => Ok st
    end
  else Ok st.

(** The [ORDER_FILL] arm. *)
Definition processOrderFill (event : LogEvent) (st : State) : result State :=
  let symbol := fill_symbol event in
  val_includes symbol "USDT" ≫= λ isUsdt : bool,
  (if isUsdt then Ok false else val_includes symbol "USDC") ≫= λ isUsdc : bool,
  correlateFill event
    (set_stats (set_fills (recordFill event isUsdt isUsdc (fills (stats st)))
                  (stats st)) st).

(** The [default] arm. *)
Definition processOther (event : LogEvent) (s : SessionStats) : SessionStats :=
  if bool_decide (level event = "ERROR") then
    if msg_includes (message event) "timeout"
    then set_errors (incr_timeouts (errors s)) s
    else if msg_includes (message event) "API"
    then set_errors (incr_apiErrors (errors s)) s
    else set_errors (incr_other (errors s)) s
  else s.

Definition processEvent (event : LogEvent) (st : State) : result State :=
  if negb (bool_decide (is_Some (category event))) then Ok st
  else
    match switch_subcategory (subcategory event) with
    | CASE_SPREAD_MET =>
        Ok (set_stats (set_spreadTriggers (S (spreadTriggers (stats st)))
                         (stats st)) st)
    | CASE_ORDER_SUBMIT => Ok (processOrderSubmit event st)
    | CASE_ORDER_RESPONSE => processOrderResponse event st
    | CASE_ORDER_FILL => processOrderFill event st
    | CASE_PARALLEL_ORDER | CASE_PAIR_LINK =>
        if truthy (field event "pair_id")
        then Ok (set_pairMap (ensurePair (field event "pair_id") (pairMap st)) st)
        else Ok st
    | CASE_FAST_CHASE =>
        Ok (set_stats (processFastChaseEvent event (stats st)) st)
    | CASE_BALANCE => Ok st
    | CASE_ORDER_STATE =>
        if msg_includes (message event) "GTX rejected"
        then Ok (set_stats (count_gtx (stats st)) st)
        else Ok st
    | CASE_ORDER_CANCEL => Ok st
    | CASE_ORDER_TIMEOUT =>
        Ok (set_stats (set_errors (incr_timeouts (errors (stats st)))
                         (stats st)) st)
    | CASE_default => Ok (set_stats (processOther event (stats st)) st)
    end.

(** ** [calculateSessionStats] *)

(** [for (const event of session.events) this.processEvent(...)] *)
Fixpoint processEvents (events : list LogEvent) (st : State) : result State :=
  match events with
  | [] => Ok st
  | event :: rest => st' ← processEvent event st; processEvents rest st'
  end.

(** One round of the loop over the pair table. *)
Definition countPair (op : OrderPairs) (entry : value * PairInfo) : OrderPairs :=
  {| attempted := S (attempted op);
     succeeded := if usdtFilled entry.2 && usdcFilled entry.2
                  then S (succeeded op) else succeeded op |}.

Definition initialState (session : StrategySession) : State :=
  {| stats := set_runtime (s_duration session) new_SessionStats;
     orderMap := []; pairMap := [] |}.

Definition calculateSessionStats (session : StrategySession)
  : result SessionStats :=
  st ← processEvents (s_events session) (initialState session);
  Ok (set_orderPairs (fold_left countPair (pairMap st) (orderPairs (stats st)))
        (stats st)).

(** ** [calculateAggregateStats] *)

(** The body of the loop: the aggregate after one more session's statistics. *)
Definition addSessionStats (aggregate sessionStats : SessionStats)
  : SessionStats := {|
  runtime := runtime aggregate + runtime sessionStats;
  spreadTriggers := spreadTriggers aggregate + spreadTriggers sessionStats;
  orderPairs := {|
    attempted := attempted (orderPairs aggregate)
                 + attempted (orderPairs sessionStats);
    succeeded := succeeded (orderPairs aggregate)
                 + succeeded (orderPairs sessionStats) |};
  orders := {|
    orders_total := orders_total (orders aggregate)
                    + orders_total (orders sessionStats);
    orders_accepted := orders_accepted (orders aggregate)
                       + orders_accepted (orders sessionStats);
    orders_rejected := orders_rejected (orders aggregate)
                       + orders_rejected (orders sessionStats);
    latencies := latencies (orders aggregate) ++ latencies (orders sessionStats) |};
  fills := {|
    fills_total := fills_total (fills aggregate) + fills_total (fills sessionStats);
    fills_partial := fills_partial (fills aggregate)
                     + fills_partial (fills sessionStats);
    fills_full := fills_full (fills aggregate) + fills_full (fills sessionStats);
    totalQty := add (totalQty (fills aggregate)) (totalQty (fills sessionStats));
    usdtQty := add (usdtQty (fills aggregate)) (usdtQty (fills sessionStats));
    usdcQty := add (usdcQty (fills aggregate)) (usdcQty (fills sessionStats));
    prices := prices (fills aggregate) ++ prices (fills sessionStats) |};
  fastChase := {|
    fc_events := fc_events (fastChase aggregate)
                 + fc_events (fastChase sessionStats);
    fc_successes := fc_successes (fastChase aggregate)
                    + fc_successes (fastChase sessionStats);
    retries := retries (fastChase aggregate) ++ retries (fastChase sessionStats);
    fallbackReasons :=
      map_fold (λ reason count acc,
                  <[reason := default 0 (acc !! reason) + count]> acc)
               (fallbackReasons (fastChase aggregate))
               (fallbackReasons (fastChase sessionStats)) |};
  errors := {|
    gtxRejections := gtxRejections (errors aggregate)
                     + gtxRejections (errors sessionStats);
    apiErrors := apiErrors (errors aggregate) + apiErrors (errors sessionStats);
    timeouts := timeouts (errors aggregate) + timeouts (errors sessionStats);
    other := other (errors aggregate) + other (errors sessionStats) |}
|}.

(** [for (const session of sessions) { ... }] from a given aggregate. *)
Fixpoint aggregateFrom (aggregate : SessionStats)
  (sessions : list StrategySession) : result SessionStats :=
  match sessions with
  | [] => Ok aggregate
  | session :: rest =>
      sessionStats ← calculateSessionStats session;
      aggregateFrom (addSessionStats aggregate sessionStats) rest
  end.

Definition calculateAggregateStats (sessions : list StrategySession)
  : result SessionStats :=
  aggregateFrom new_SessionStats sessions.

(** ** Order-detail extraction *)

(** Modelled from the spec: the class OrderDetail is not among the
    sources.  A row has a submit time (the constructor's [timestamp]), a fill
    time that is absent until a fill is seen, symbol, side, order type,
    requested quantity, price, status, order id, latency and pair id, and the
    three fill quantities; a quantity the extraction has not assigned is
    [None]. *)
Record OrderDetail : Type := {
  submitTime : Z;
  fillTime : option Z;
  symbol : value;
  side : value;
  orderType : value;
  quantity : value;
  price : value;
  status : string;
  orderId : value;
  latency : value;
  pairId : value;
  filledQty : option number;
  cumulativeFilled : option number;
  accumulated : option number
}.

(** Modelled from the spec: [new OrderDetail({timestamp, symbol, side,
    orderType, quantity, price, status, orderId, latency, pairId})]. *)
Definition new_OrderDetail (ts : Z) (sym sd ty qty pr : value) (st : string)
  (oid lat pid : value) : OrderDetail :=
  {| submitTime := ts; fillTime := None; symbol := sym; side := sd;
     orderType := ty; quantity := qty; price := pr; status := st;
     orderId := oid; latency := lat; pairId := pid;
     filledQty := None; cumulativeFilled := None; accumulated := None |}.

Definition set_status (st : string) (r : OrderDetail) : OrderDetail :=
  {| submitTime := submitTime r; fillTime := fillTime r; symbol := symbol r;
     side := side r; orderType := orderType r; quantity := quantity r;
     price := price r; status := st; orderId := orderId r;
     latency := latency r; pairId := pairId r; filledQty := filledQty r;
     cumulativeFilled := cumulativeFilled r; accumulated := accumulated r |}.

Definition set_pairId (pid : value) (r : OrderDetail) : OrderDetail :=
  {| submitTime := submitTime r; fillTime := fillTime r; symbol := symbol r;
     side := side r; orderType := orderType r; quantity := quantity r;
     price := price r; status := status r; orderId := orderId r;
     latency := latency r; pairId := pid; filledQty := filledQty r;
     cumulativeFilled := cumulativeFilled r; accumulated := accumulated r |}.

(** A pending ORDER_SUBMIT. *)
Record SubmitInfo : Type := {
  si_timestamp : Z;
  si_symbol : value;
  si_side : value;
  si_orderType : value;
  si_quantity : value;
  si_price : value
}.

Definition submitInfo_of (event : LogEvent) : SubmitInfo :=
  {| si_timestamp := timestamp event;
     si_symbol := field event "symbol";
     si_side := field event "side";
     si_orderType := or (field event "type") (VStr "LIMIT");
     si_quantity := field event "qty";
     si_price := field event "price" |}.

(** [const submitIdx = pendingSubmits.findIndex(s => s.symbol === symbol);
     const submitInfo = submitIdx >= 0 ? pendingSubmits.splice(submitIdx, 1)[0] : null;]
    the submission found, if any, and the queue that is left. *)
Definition takePending (sym : value) (pending : list SubmitInfo)
  : option SubmitInfo * list SubmitInfo :=
  match list_find (λ s, si_symbol s = sym) pending with
  | Some (submitIdx, s) => (Some s, delete submitIdx pending)
  | None => (None, pending)
  end.

(** [isAccepted ? 'accepted' : (isRejected ? 'rejected' : 'unknown')] *)
Definition response_status (event : LogEvent) : string :=
  if msg_includes (message event) "Order accepted" then "accepted"
  else if msg_includes (message event) "Order rejected" then "rejected"
  else "unknown".

(** The row an ORDER_RESPONSE gives, from the submission matched to it. *)
Definition response_row (event : LogEvent) (submitInfo : option SubmitInfo)
  : OrderDetail :=
  new_OrderDetail
    (match submitInfo with Some s => si_timestamp s | None => timestamp event end)
    (field event "symbol")
    (match submitInfo with Some s => si_side s | None => VNull end)
    (match submitInfo with Some s => si_orderType s | None => VStr "LIMIT" end)
    (match submitInfo with Some s => si_quantity s | None => VNull end)
    (match submitInfo with Some s => si_price s | None => VNull end)
    (response_status event)
    (field event "order_id")
    (or (field event "latency_ms") VNull)
    VNull.

Definition is_sub (event : LogEvent) (name : string) : bool :=
  bool_decide (subcategory event = Some name).

(** Stable sort by an integer key, ascending: [Array.prototype.sort] with
    the comparator [(a, b) => key(a) - key(b)]. *)
Fixpoint insert_by {A} (key : A → Z) (x : A) (l : list A) : list A :=
  match l with
  | [] => [x]
  | y :: l' =>
      if (key x <=? key y)%Z then x :: y :: l' else y :: insert_by key x l'
  end.

Fixpoint sort_by {A} (key : A → Z) (l : list A) : list A :=
  match l with
  | [] => []
  | x :: l' => insert_by key x (sort_by key l')
  end.

(** *** [extractOrderDetails] *)

(** The rows, the order table and the pending queue.  The table holds the
    very objects of the row list: an entry is the position of its row. *)
Record DetailState : Type := {
  ds_orders : list OrderDetail;
  ds_orderMap : JSMap nat;
  ds_pending : list SubmitInfo
}.

(** The mutation of a row by a fill. *)
Definition fill_detail (event : LogEvent) (detail : OrderDetail) : OrderDetail :=
  {| submitTime := submitTime detail;
     fillTime := Some (timestamp event);
     symbol := symbol detail; side := side detail;
     orderType := orderType detail; quantity := quantity detail;
     price := price detail;
     status := if msg_includes (message event) "Partial fill"
               then "partial" else "filled";
     orderId := orderId detail; latency := latency detail;
     pairId := pairId detail;
     filledQty :=
       if bool_decide (field event "last_filled" = VUndef) then filledQty detail
       else Some (number_or (parseFloat (field event "last_filled")) zero);
     cumulativeFilled := cumulativeFilled detail;
     accumulated :=
       if bool_decide (field event "accumulated" = VUndef) then accumulated detail
       else Some (number_or (parseFloat (field event "accumulated")) zero) |}.

(** The body of the inner loop. *)
Definition detailStep (st : DetailState) (event : LogEvent) : DetailState :=
  if is_sub event "ORDER_SUBMIT" then
    {| ds_orders := ds_orders st; ds_orderMap := ds_orderMap st;
       ds_pending := ds_pending st ++ [submitInfo_of event] |}
  else if is_sub event "ORDER_RESPONSE" then
    if negb (truthy (field event "order_id")) then st
    else
      let (submitInfo, pending') :=
        takePending (field event "symbol") (ds_pending st) in
      {| ds_orders := ds_orders st ++ [response_row event submitInfo];
         ds_orderMap := Map_set (field event "order_id")
                          (length (ds_orders st)) (ds_orderMap st);
         ds_pending := pending' |}
  else if is_sub event "ORDER_FILL" then
    if truthy (field event "order_id") then
      match Map_get (field event "order_id") (ds_orderMap st) with
      | Some i =>
          {| ds_orders := alter (fill_detail event) i (ds_orders st);
             ds_orderMap := ds_orderMap st; ds_pending := ds_pending st |}
      | None => st
      end
    else st
  else st.

Definition detailPass (sessions : list StrategySession) : DetailState :=
  fold_left (λ st session, fold_left detailStep (s_events session) st)
    sessions {| ds_orders := []; ds_orderMap := []; ds_pending := [] |}.

Definition extractOrderDetails (sessions : list StrategySession)
  : list OrderDetail :=
  sort_by submitTime (ds_orders (detailPass sessions)).

(** *** [extractOrdersBySession] *)

(** The base order information kept per order id. *)
Record BaseOrder : Type := {
  bo_submitTime : Z;
  bo_symbol : value;
  bo_side : value;
  bo_orderType : value;
  bo_quantity : value;
  bo_price : value;
  bo_latency : value;
  bo_status : string
}.

Definition set_bo_status (st : string) (b : BaseOrder) : BaseOrder :=
  {| bo_submitTime := bo_submitTime b; bo_symbol := bo_symbol b;
     bo_side := bo_side b; bo_orderType := bo_orderType b;
     bo_quantity := bo_quantity b; bo_price := bo_price b;
     bo_latency := bo_latency b; bo_status := st |}.

Definition baseOrder_of (event : LogEvent) (submitInfo : option SubmitInfo)
  : BaseOrder :=
  {| bo_submitTime :=
       match submitInfo with Some s => si_timestamp s | None => timestamp event end;
     bo_symbol := field event "symbol";
     bo_side := match submitInfo with Some s => si_side s | None => VNull end;
     bo_orderType :=
       match submitInfo with Some s => si_orderType s | None => VStr "LIMIT" end;
     bo_quantity :=
       match submitInfo with Some s => si_quantity s | None => VNull end;
     bo_price := match submitInfo with Some s => si_price s | None => VNull end;
     bo_latency := or (field event "latency_ms") VNull;
     bo_status := response_status event |}.

Record RowState : Type := {
  rs_rows : list OrderDetail;
  rs_orderMap : JSMap BaseOrder;
  rs_pending : list SubmitInfo
}.

(** The dedicated row of a fill. *)
Definition fill_row (event : LogEvent) (baseOrder : option BaseOrder)
  : OrderDetail :=
  {| submitTime :=
       match baseOrder with Some b => bo_submitTime b | None => timestamp event end;
     fillTime := Some (timestamp event);
     symbol := or (field event "symbol")
                 (match baseOrder with Some b => bo_symbol b | None => VNull end);
     side := match baseOrder with Some b => bo_side b | None => VNull end;
     orderType :=
       match baseOrder with Some b => bo_orderType b | None => VStr "LIMIT" end;
     quantity := match baseOrder with Some b => bo_quantity b | None => VNull end;
     price := or (or (field event "last_price") (field event "price"))
                (match baseOrder with Some b => bo_price b | None => VNull end);
     status := if msg_includes (message event) "Partial fill"
               then "partial" else "filled";
     orderId := field event "order_id";
     latency := match baseOrder with Some b => bo_latency b | None => VNull end;
     pairId := VNull;
     filledQty := Some (number_or (parseFloat (field event "last_filled")) zero);
     cumulativeFilled :=
       Some (number_or
               (number_or (parseFloat (field event "cumulative_filled"))
                          (parseFloat (field event "total_filled")))
               zero);
     accumulated := Some (number_or (parseFloat (field event "accumulated")) zero)
  |}.

(** [r => r.orderId === orderId && r.status === 'accepted'] *)
Definition is_accepted_row (oid : value) (r : OrderDetail) : Prop :=
  orderId r = oid ∧ status r = "accepted".

Global Instance is_accepted_row_dec oid r : Decision (is_accepted_row oid r).
Proof. unfold is_accepted_row. apply _. Defined.

(** [const acceptedIdx = rows.findIndex(...); if (acceptedIdx >= 0) rows.splice(acceptedIdx, 1);] *)
Definition removeAccepted (oid : value) (rows : list OrderDetail)
  : list OrderDetail :=
  match list_find (is_accepted_row oid) rows with
  | Some (acceptedIdx, _) => delete acceptedIdx rows
  | None => rows
  end.

(** [const orderRow = rows.find(...); if (orderRow) orderRow.status = st;] *)
Definition restatusAccepted (oid : value) (st : string)
  (rows : list OrderDetail) : list OrderDetail :=
  match list_find (is_accepted_row oid) rows with
  | Some (i, _) => alter (set_status st) i rows
  | None => rows
  end.

(** The body of the loop over a session's events. *)
Definition rowStep (st : RowState) (event : LogEvent) : RowState :=
  if is_sub event "ORDER_SUBMIT" then
    {| rs_rows := rs_rows st; rs_orderMap := rs_orderMap st;
       rs_pending := rs_pending st ++ [submitInfo_of event] |}
  else if is_sub event "ORDER_RESPONSE" then
    if negb (truthy (field event "order_id")) then st
    else
      let (submitInfo, pending') :=
        takePending (field event "symbol") (rs_pending st) in
      {| rs_rows := rs_rows st ++ [response_row event submitInfo];
         rs_orderMap := Map_set (field event "order_id")
                          (baseOrder_of event submitInfo) (rs_orderMap st);
         rs_pending := pending' |}
  else if is_sub event "ORDER_FILL" then
    let oid := field event "order_id" in
    let baseOrder := Map_get oid (rs_orderMap st) in
    {| rs_rows := removeAccepted oid (rs_rows st ++ [fill_row event baseOrder]);
       rs_orderMap := rs_orderMap st; rs_pending := rs_pending st |}
  else if is_sub event "ORDER_STATE" then
    let oid := field event "order_id" in
    if truthy oid then
      match Map_get oid (rs_orderMap st) with
      | Some baseOrder =>
          if msg_includes (message event) "GTX rejected" then
            {| rs_rows := restatusAccepted oid "rejected" (rs_rows st);
               rs_orderMap := Map_set oid (set_bo_status "rejected" baseOrder)
                                (rs_orderMap st);
               rs_pending := rs_pending st |}
          else if msg_includes (message event) "canceled" then
            {| rs_rows := restatusAccepted oid "canceled" (rs_rows st);
               rs_orderMap := Map_set oid (set_bo_status "canceled" baseOrder)
                                (rs_orderMap st);
               rs_pending := rs_pending st |}
          else st
      | None => st
      end
    else st
  else if is_sub event "PAIR_LINK" then
    {| rs_rows :=
         map (λ r, if strict_eq (orderId r) (field event "usdt_order")
                      || strict_eq (orderId r) (field event "usdc_order")
                   then set_pairId (field event "pair_id") r else r)
             (rs_rows st);
       rs_orderMap := rs_orderMap st; rs_pending := rs_pending st |}
  else st.

Definition rowPass (events : list LogEvent) : RowState :=
  fold_left rowStep events {| rs_rows := []; rs_orderMap := []; rs_pending := [] |}.

(** [a.fillTime || a.submitTime] *)
Definition row_time (r : OrderDetail) : Z :=
  match fillTime r with Some t => t | None => submitTime r end.

(** One element of the result: the session, its statistics (the summary
    copies fields of them) and its rows. *)
Record SessionOrders : Type := {
  so_session : StrategySession;
  so_stats : SessionStats;
  so_orders : list OrderDetail
}.

Fixpoint extractOrdersBySession (sessions : list StrategySession)
  : result (list SessionOrders) :=
  match sessions with
  | [] => Ok []
  | session :: rest =>
      let rows := sort_by row_time (rs_rows (rowPass (s_events session))) in
      sessionStats ← calculateSessionStats session;
      more ← extractOrdersBySession rest;
      Ok ({| so_session := session; so_stats := sessionStats; so_orders := rows |}
            :: more)
  end.

(** ** The field-wise sum of two statistics, as the specification words it *)

(** Fallback-reason mappings are merged by summing the counts per key. *)
Definition mergeReasons (m1 m2 : gmap string nat) : gmap string nat :=
  union_with (λ c1 c2, Some (c1 + c2)) m1 m2.

(** Scalar counters and quantity totals are added, sample lists are
    concatenated in order, fallback-reason mappings are merged. *)
Definition sumStats (a b : SessionStats) : SessionStats := {|
  runtime := runtime a + runtime b;
  spreadTriggers := spreadTriggers a + spreadTriggers b;
  orderPairs := {|
    attempted := attempted (orderPairs a) + attempted (orderPairs b);
    succeeded := succeeded (orderPairs a) + succeeded (orderPairs b) |};
  orders := {|
    orders_total := orders_total (orders a) + orders_total (orders b);
    orders_accepted := orders_accepted (orders a) + orders_accepted (orders b);
    orders_rejected := orders_rejected (orders a) + orders_rejected (orders b);
    latencies := latencies (orders a) ++ latencies (orders b) |};
  fills := {|
    fills_total := fills_total (fills a) + fills_total (fills b);
    fills_partial := fills_partial (fills a) + fills_partial (fills b);
    fills_full := fills_full (fills a) + fills_full (fills b);
    totalQty := add (totalQty (fills a)) (totalQty (fills b));
    usdtQty := add (usdtQty (fills a)) (usdtQty (fills b));
    usdcQty := add (usdcQty (fills a)) (usdcQty (fills b));
    prices := prices (fills a) ++ prices (fills b) |};
  fastChase := {|
    fc_events := fc_events (fastChase a) + fc_events (fastChase b);
    fc_successes := fc_successes (fastChase a) + fc_successes (fastChase b);
    retries := retries (fastChase a) ++ retries (fastChase b);
    fallbackReasons :=
      mergeReasons (fallbackReasons (fastChase a)) (fallbackReasons (fastChase b)) |};
  errors := {|
    gtxRejections := gtxRejections (errors a) + gtxRejections (errors b);
    apiErrors := apiErrors (errors a) + apiErrors (errors b);
    timeouts := timeouts (errors a) + timeouts (errors b);
    other := other (errors a) + other (errors b) |}
|}.

(** ** Predicates and observations used in the statements *)

(** An ORDER_FILL event that passes the guard of [processEvent]. *)
Definition counted_fill (e : LogEvent) : bool :=
  bool_decide (is_Some (category e))
  && bool_decide (subcategory e = Some "ORDER_FILL").

(** Both legs of a pair are marked filled. *)
Definition bothFilled (entry : value * PairInfo) : Prop :=
  usdtFilled entry.2 = true ∧ usdcFilled entry.2 = true.

Global Instance bothFilled_dec entry : Decision (bothFilled entry).
Proof. unfold bothFilled. apply _. Defined.


(** The subcategories [processEvent] has an arm for. *)
Definition handledSubcategories : list string :=
  ["SPREAD_MET"; "ORDER_SUBMIT"; "ORDER_RESPONSE"; "ORDER_FILL";
   "PARALLEL_ORDER"; "PAIR_LINK"; "FAST_CHASE"; "BALANCE"; "ORDER_STATE";
   "ORDER_CANCEL"; "ORDER_TIMEOUT"].

(** The subcategory, if there is one, is none of the handled ones. *)
Definition unhandled (e : LogEvent) : Prop :=
  ∀ s, subcategory e = Some s → s ∉ handledSubcategories.

(** The error counters of a session. *)
Definition errorCounts (session : StrategySession) : result Errors :=
  r ← calculateSessionStats session; Ok (errors r).

(** [v && v.includes(...)] does not throw: [v] is falsy or a string. *)
Definition includes_ok (v : value) : bool :=
  match v with
  | VStr _ => true
  | _ => negb (truthy v)
  end.

(** How an ORDER_RESPONSE is classified. *)
Inductive Verdict : Type :=
  | Accepted
  | Rejected (gtx : bool)
  | Unclassified.

(** The payload's status field says accepted. *)
Definition statusAccepted (e : LogEvent) : bool :=
  strict_eq (field e "status") (VStr "accepted")
  || strict_eq (field e "status") (VStr "NEW").

(** "GTX" occurs in the error field or in the message. *)
Definition namesGTX (e : LogEvent) : bool :=
  match field e "error" with VStr s => includes "GTX" s | _ => false end
  || includes "GTX" (message e).

(** The classification of an ORDER_RESPONSE, given whether its order id is in
    the order table: without an order id there is none; the status field
    counts for a known order only; a rejection is told by the message. *)
Definition verdict (e : LogEvent) (matched : bool) : Verdict :=
  if negb (truthy (field e "order_id")) then Unclassified
  else if includes "Order accepted" (message e) || (matched && statusAccepted e)
  then Accepted
  else if includes "Order rejected" (message e) then Rejected (namesGTX e)
  else Unclassified.

(** The order table after the order [oid], if known, got status [st]. *)
Definition withStatus (oid : value) (st : string) (om : JSMap OrderInfo)
  : JSMap OrderInfo :=
  match Map_get oid om with
  | Some order => Map_set oid (set_oi_status st order) om
  | None => om
  end.

(** [orders.accepted], [orders.rejected] and [errors.gtxRejections]. *)
Definition responseCounts (session : StrategySession)
  : result (nat * nat * nat) :=
  r ← calculateSessionStats session;
  Ok (orders_accepted (orders r), orders_rejected (orders r),
      gtxRejections (errors r)).

(** The text of the symbol a fill is attributed by. *)
Definition fill_symbol_text (e : LogEvent) : string :=
  match fill_symbol e with VStr s => s | _ => "" end.




(** An ORDER_RESPONSE that gives a row: it carries an order id. *)
Definition gives_row (e : LogEvent) : Prop :=
  subcategory e = Some "ORDER_RESPONSE" ∧ truthy (field e "order_id") = true.

Global Instance gives_row_dec e : Decision (gives_row e).
Proof. unfold gives_row. apply _. Defined.


(** The order id and status of the rows of each session. *)
Definition rowStatuses (sessions : list StrategySession)
  : result (list (list (value * string))) :=
  l ← extractOrdersBySession sessions;
  Ok (map (λ so, map (λ r, (orderId r, status r)) (so_orders so)) l).


(** The fields [processEvent] calls [.includes] on are absent or strings. *)
Definition well_typed (e : LogEvent) : bool :=
  includes_ok (field e "symbol") && includes_ok (field e "error").

(** The symbols kept in the order table are absent or strings. *)
Definition orders_ok (om : JSMap OrderInfo) : Prop :=
  Forall (λ entry, includes_ok (oi_symbol entry.2) = true) om.

(** ** Events and sessions used as examples *)

Definition mkEvent (ts : Z) (lvl : string) (cat : option Category)
  (sub : option string) (msg : string) (kv : list (string * value)) : LogEvent :=
  {| timestamp := ts; level := lvl; module_ := "strategy"; category := cat;
     subcategory := sub; asset := Some "ETH"; message := msg;
     data := list_to_map kv |}.

Definition audit (ts : Z) (sub msg : string) (kv : list (string * value))
  : LogEvent :=
  mkEvent ts "INFO" (Some AUDIT) (Some sub) msg kv.

Definition mkSession (events : list LogEvent) : StrategySession :=
  {| s_asset := "ETH"; s_startTime := 0; s_endTime := None;
     s_events := events; s_duration := 5000 |}.

Definition q_of (n : Z) (d : positive) : Qc := Q2Qc (n # d).

(** A session with a partial fill, a full fill and an event without tags. *)
Definition twoFillSession : StrategySession :=
  mkSession
    [ audit 1000 "ORDER_FILL" "Partial fill"
        [("order_id", VStr "A1"); ("symbol", VStr "ETHUSDT");
         ("last_filled", VNum (q_of 1 2)); ("last_price", VNum (q_of 3000 1))];
      mkEvent 1500 "ERROR" None None "request timeout" [];
      audit 2000 "ORDER_FILL" "USDC order filled"
        [("order_id", VStr "A2"); ("filled", VNum (q_of 1 1));
         ("price", VNum (q_of 3001 1))] ].

(** An ORDER_SUBMIT whose payload carries the pair id. *)
Definition submitEvent (oid sym pid : value) : LogEvent :=
  audit 1000 "ORDER_SUBMIT" "Submitting order"
    [("order_id", oid); ("symbol", sym); ("pair_id", pid)].

(** An ORDER_SUBMIT whose payload has no pair id. *)
Definition submitEventNoPair (oid sym : value) : LogEvent :=
  audit 1000 "ORDER_SUBMIT" "Submitting order"
    [("order_id", oid); ("symbol", sym)].

Definition pairLinkEvent (pid usdt usdc : value) : LogEvent :=
  audit 2000 "PAIR_LINK" "Orders linked"
    [("pair_id", pid); ("usdt_order", usdt); ("usdc_order", usdc)].

Definition fillEvent (oid sym : value) : LogEvent :=
  audit 3000 "ORDER_FILL" "Order filled"
    [("order_id", oid); ("symbol", sym); ("last_filled", VNum (q_of 1 1))].

(** Both legs submitted with the pair id, linked, and filled. *)
Definition pairedSession (usdt usdc pid : value) : StrategySession :=
  mkSession
    [ submitEvent usdt (VStr "ETHUSDT") pid;
      submitEvent usdc (VStr "ETHUSDC") pid;
      pairLinkEvent pid usdt usdc;
      fillEvent usdt (VStr "ETHUSDT");
      fillEvent usdc (VStr "ETHUSDC") ].

(** The same, with only the USDT leg filled. *)
Definition oneLegSession (usdt usdc pid : value) : StrategySession :=
  mkSession
    [ submitEvent usdt (VStr "ETHUSDT") pid;
      submitEvent usdc (VStr "ETHUSDC") pid;
      pairLinkEvent pid usdt usdc;
      fillEvent usdt (VStr "ETHUSDT") ].


(** The PAIR_LINK and the two fills alone. *)
Definition linkAndFillsSession : StrategySession :=
  mkSession
    [ pairLinkEvent (VStr "P1") (VStr "A1") (VStr "A2");
      fillEvent (VStr "A1") (VStr "ETHUSDT");
      fillEvent (VStr "A2") (VStr "ETHUSDC") ].

(** An ERROR line without tags. *)
Definition untaggedError : LogEvent :=
  mkEvent 1000 "ERROR" None None "request timeout calling API" [].

(** An ERROR line under a tag that has no arm of its own. *)
Definition taggedError : LogEvent :=
  mkEvent 1000 "ERROR" (Some AUDIT) (Some "WS_STATE") "API returned 500" [].

(** A rejection that names GTX in the error field of the response ... *)
Definition gtxResponse : LogEvent :=
  audit 1100 "ORDER_RESPONSE" "Order rejected"
    [("order_id", VStr "A1"); ("symbol", VStr "ETHUSDT");
     ("error", VStr "GTX order would immediately match")].

(** ... and the order state event that follows it. *)
Definition gtxState : LogEvent :=
  audit 1200 "ORDER_STATE" "Order expired (GTX rejected)"
    [("order_id", VStr "A1")].

Definition gtxRejectedSession : StrategySession :=
  mkSession
    [submitEventNoPair (VStr "A1") (VStr "ETHUSDT"); gtxResponse; gtxState].

(** A rejection whose payload has no order id. *)
Definition rejectedNoId : LogEvent :=
  audit 1100 "ORDER_RESPONSE" "Order rejected"
    [("symbol", VStr "ETHUSDT");
     ("error", VStr "GTX order would immediately match")].

(** An acceptance told by the status field only, for an order that was not
    submitted in this session. *)
Definition statusOnlyResponse : LogEvent :=
  audit 1100 "ORDER_RESPONSE" "Order response"
    [("order_id", VStr "B7"); ("symbol", VStr "ETHUSDT"); ("status", VStr "NEW")].

(** The same response after the submission of its order. *)
Definition statusOnlySession : StrategySession :=
  mkSession [submitEventNoPair (VStr "B7") (VStr "ETHUSDT"); statusOnlyResponse].

(** A fill whose order id is not in the order table. *)
Definition unmatchedFill : LogEvent :=
  audit 3000 "ORDER_FILL" "Partial fill"
    [("order_id", VStr "Z9"); ("symbol", VStr "ETHUSDC");
     ("filled", VNum (q_of 0 1)); ("qty", VNum (q_of 5 2));
     ("last_price", VNum (q_of 3000 1))].

(** A submission and a response without an order id, for the same symbol. *)
Definition skippedResponseSession : StrategySession :=
  mkSession [submitEventNoPair (VStr "A1") (VStr "ETHUSDT"); rejectedNoId].

Definition buySubmit : LogEvent :=
  audit 1000 "ORDER_SUBMIT" "Submitting order"
    [("symbol", VStr "ETHUSDT"); ("side", VStr "BUY")].

Definition sellSubmit : LogEvent :=
  audit 1010 "ORDER_SUBMIT" "Submitting order"
    [("symbol", VStr "ETHUSDT"); ("side", VStr "SELL")].

Definition acceptedA1 : LogEvent :=
  audit 1100 "ORDER_RESPONSE" "Order accepted"
    [("order_id", VStr "A1"); ("symbol", VStr "ETHUSDT")].

Definition acceptedA2 : LogEvent :=
  audit 1200 "ORDER_RESPONSE" "Order accepted"
    [("order_id", VStr "A2"); ("symbol", VStr "ETHUSDC")].

Definition fillA1 : LogEvent :=
  audit 3000 "ORDER_FILL" "Order filled"
    [("order_id", VStr "A1"); ("symbol", VStr "ETHUSDT");
     ("last_filled", VNum (q_of 1 1))].


(** The fill comes before the acceptance. *)
Definition fillFirstSession : StrategySession :=
  mkSession [fillA1; acceptedA1].

(** One acceptance, then the fill. *)
Definition acceptedThenFilledSession : StrategySession :=
  mkSession [acceptedA1; fillA1].

(** ** Which arm an event takes *)

Global Instance Case_eq_dec : EqDecision Case.
Proof. solve_decision. Defined.

(** The event passes the guard of [processEvent] and has this subcategory. *)
Definition guarded (e : LogEvent) (name : string) : bool :=
  bool_decide (is_Some (category e))
  && bool_decide (subcategory e = Some name).

(** The arm of [processEvent] an event reaches; none when the guard returns. *)
Definition arm_of (e : LogEvent) : option Case :=
  if bool_decide (is_Some (category e))
  then Some (switch_subcategory (subcategory e)) else None.

(** The label of a [case]. *)
Definition case_name (c : Case) : option string :=
  match c with
  | CASE_SPREAD_MET => Some "SPREAD_MET"
  | CASE_ORDER_SUBMIT => Some "ORDER_SUBMIT"
  | CASE_ORDER_RESPONSE => Some "ORDER_RESPONSE"
  | CASE_ORDER_FILL => Some "ORDER_FILL"
  | CASE_PARALLEL_ORDER => Some "PARALLEL_ORDER"
  | CASE_PAIR_LINK => Some "PAIR_LINK"
  | CASE_FAST_CHASE => Some "FAST_CHASE"
  | CASE_BALANCE => Some "BALANCE"
  | CASE_ORDER_STATE => Some "ORDER_STATE"
  | CASE_ORDER_CANCEL => Some "ORDER_CANCEL"
  | CASE_ORDER_TIMEOUT => Some "ORDER_TIMEOUT"
  | CASE_default => None
  end.

(** The number of events that satisfy a test. *)
Definition count (p : LogEvent → bool) (events : list LogEvent) : nat :=
  length (filter (λ e, p e = true) events).

(** The latency sample an event contributes. *)
Definition latency_sample (e : LogEvent) : list value :=
  if guarded e "ORDER_RESPONSE" && truthy (field e "latency_ms")
  then [field e "latency_ms"] else [].


(** An ORDER_RESPONSE past the guard that carries an order id. *)
Definition response_with_id (e : LogEvent) : bool :=
  guarded e "ORDER_RESPONSE" && truthy (field e "order_id").

(** An ORDER_STATE event past the guard with the GTX-rejection marker. *)
Definition state_gtx (e : LogEvent) : bool :=
  guarded e "ORDER_STATE" && includes "GTX rejected" (message e).

(** An event past the guard whose subcategory has no arm, at ERROR level. *)
Definition stray_error (e : LogEvent) : bool :=
  bool_decide (arm_of e = Some CASE_default)
  && bool_decide (level e = "ERROR").

(** The three classes of the [default] arm. *)
Definition timeout_error (e : LogEvent) : bool :=
  stray_error e && includes "timeout" (message e).

Definition api_error (e : LogEvent) : bool :=
  stray_error e && negb (includes "timeout" (message e))
  && includes "API" (message e).

Definition other_error (e : LogEvent) : bool :=
  stray_error e && negb (includes "timeout" (message e))
  && negb (includes "API" (message e)).






(** A session that exercises most arms of the reducer. *)
Definition busySession : StrategySession :=
  mkSession
    [ audit 1000 "SPREAD_MET" "Spread condition met" [("spread", VNum (q_of 3 25))];
      submitEventNoPair (VStr "A1") (VStr "ETHUSDT");
      audit 1050 "ORDER_SUBMIT" "Submitting order" [("symbol", VStr "ETHUSDC")];
      audit 1100 "ORDER_RESPONSE" "Order accepted"
        [("order_id", VStr "A1"); ("symbol", VStr "ETHUSDT");
         ("latency_ms", VNum (q_of 12 1))];
      gtxResponse;
      gtxState;
      audit 1300 "FAST_CHASE" "Entering fast chase mode" [];
      audit 1400 "FAST_CHASE" "Fast chase fallback triggered"
        [("reason", VStr "max retries")];
      audit 1500 "FAST_CHASE" "Fast chase fallback triggered" [];
      audit 1600 "FAST_CHASE" "Fast chase completed successfully"
        [("retry_count", VNum (q_of 0 1))];
      audit 1700 "ORDER_TIMEOUT" "Order timed out" [("order_id", VStr "A1")];
      taggedError;
      untaggedError;
      unmatchedFill ].

(** The call returned. *)
Definition is_Ok {A} (r : result A) : bool :=
  match r with Ok _ => true | Throw _ => false end.

(** The statistics of each session, unless one throws. *)
Fixpoint eachSessionStats (sessions : list StrategySession)
  : result (list SessionStats) :=
  match sessions with
  | [] => Ok []
  | s :: rest =>
      r ← calculateSessionStats s;
      rs ← eachSessionStats rest;
      Ok (r :: rs)
  end.

(** The events of all sessions, in order. *)
Definition allEvents (sessions : list StrategySession) : list LogEvent :=
  concat (map s_events sessions).

(** The sum of the durations. *)
Definition totalDuration (sessions : list StrategySession) : Z :=
  foldr Z.add 0%Z (map s_duration sessions).

(** A fill whose symbol is a number. *)
Definition numericSymbolFill : LogEvent :=
  audit 3000 "ORDER_FILL" "Order filled"
    [("order_id", VStr "A1"); ("symbol", VNum (q_of 42 1))].

(** A rejection whose error field is a number. *)
Definition numericErrorRejection : LogEvent :=
  audit 1100 "ORDER_RESPONSE" "Order rejected"
    [("order_id", VStr "A1"); ("error", VNum (q_of (-5022) 1))].

(** The session with other events. *)
Definition with_events (s : StrategySession) (events : list LogEvent)
  : StrategySession :=
  {| s_asset := s_asset s; s_startTime := s_startTime s;
     s_endTime := s_endTime s; s_events := events;
     s_duration := s_duration s |}.


(** An entry of the pair table and a later state of it: the same pair id,
    and a leg that was filled still is. *)
Definition leg_le (a b : value * PairInfo) : Prop :=
  a.1 = b.1
  ∧ (usdtFilled a.2 = true → usdtFilled b.2 = true)
  ∧ (usdcFilled a.2 = true → usdcFilled b.2 = true).

(** The pair table grew: the old entries, possibly with more legs filled,
    followed by new ones. *)
Definition pairs_grow (pm pm' : JSMap PairInfo) : Prop :=
  ∃ upd ext, pm' = upd ++ ext ∧ Forall2 leg_le pm upd.

(** ** Observations on the extracted rows *)

(** The orders of the two final sorts. *)
Definition by_submit_time (a b : OrderDetail) : Prop :=
  (submitTime a ≤ submitTime b)%Z.

Definition by_row_time (a b : OrderDetail) : Prop :=
  (row_time a ≤ row_time b)%Z.

(** The events of a list of sessions, with the session boundaries. *)
Definition splitSessions (l1 l2 : list LogEvent) : list StrategySession :=
  [mkSession l1; mkSession l2].

(** The row has a fill time. *)
Definition has_fill (r : OrderDetail) : bool :=
  match fillTime r with Some _ => true | None => false end.

(** The shape of a row of [extractOrderDetails]: its order id is truthy, no
    pair id and no cumulative quantity is ever assigned, no quantity is NaN;
    a row without fill time is as the response left it, a row with one has
    the status of a fill. *)
Definition detail_row_ok (r : OrderDetail) : Prop :=
  truthy (orderId r) = true ∧ pairId r = VNull ∧ cumulativeFilled r = None
  ∧ filledQty r ≠ Some NaN ∧ accumulated r ≠ Some NaN
  ∧ if has_fill r then status r ∈ ["partial"; "filled"]
    else status r ∈ ["accepted"; "rejected"; "unknown"]
         ∧ filledQty r = None ∧ accumulated r = None.

Global Instance detail_row_ok_dec r : Decision (detail_row_ok r).
Proof. unfold detail_row_ok. destruct (has_fill r); apply _. Defined.

(** The shape of a row of [extractOrdersBySession]: a row without fill time
    comes from a response (truthy order id, no quantities, a response status
    or "canceled"); a row with one comes from a fill (status of a fill, the
    three quantities are numbers). *)
Definition session_row_ok (r : OrderDetail) : Prop :=
  if has_fill r
  then status r ∈ ["partial"; "filled"]
       ∧ (∃ n, filledQty r = Some n ∧ n ≠ NaN)
       ∧ (∃ n, cumulativeFilled r = Some n ∧ n ≠ NaN)
       ∧ (∃ n, accumulated r = Some n ∧ n ≠ NaN)
  else truthy (orderId r) = true
       ∧ status r ∈ ["accepted"; "rejected"; "unknown"; "canceled"]
       ∧ filledQty r = None ∧ cumulativeFilled r = None
       ∧ accumulated r = None.

(** An event with this subcategory, whatever its category. *)
Definition response_row_event (e : LogEvent) : bool :=
  is_sub e "ORDER_RESPONSE" && truthy (field e "order_id").

(** What the loop of [extractOrdersBySession] keeps true of its rows, for
    the numbers of fills and of responses with an order id seen so far. *)
Definition rows_census (rows : list OrderDetail) (fills responses : nat)
  : Prop :=
  Forall session_row_ok rows
  ∧ length (filter (λ r, has_fill r = true) rows) = fills
  ∧ (length rows ≤ fills + responses)%nat.

(** A fill that [processEvent] counts as partial: the message marker, or the
    payload's [fill_type]. *)
Definition partial_fill (e : LogEvent) : bool :=
  guarded e "ORDER_FILL"
  && (includes "Partial fill" (message e)
      || strict_eq (field e "fill_type") (VStr "partial")).

Definition full_fill (e : LogEvent) : bool :=
  guarded e "ORDER_FILL"
  && negb (includes "Partial fill" (message e)
           || strict_eq (field e "fill_type") (VStr "partial")).

(** A PARALLEL_ORDER or PAIR_LINK event past the guard with a pair id. *)
Definition pair_event (e : LogEvent) : bool :=
  (guarded e "PARALLEL_ORDER" || guarded e "PAIR_LINK")
  && truthy (field e "pair_id").

(** The number of legs marked filled in the pair table. *)
Definition legsFilled (pm : JSMap PairInfo) : nat :=
  foldr (λ entry n, Nat.b2n (usdtFilled entry.2) + Nat.b2n (usdcFilled entry.2) + n)
    0 pm.

(** ** [formatDuration] *)


(** An ORDER_SUBMIT past the guard that enters the order table with a pair
    id: both [order_id] and [pair_id] are truthy. *)
Definition submit_with_pair (e : LogEvent) : bool :=
  guarded e "ORDER_SUBMIT"
  && truthy (field e "order_id") && truthy (field e "pair_id").

(** No order of the table belongs to a pair. *)
Definition no_paired_order (om : JSMap OrderInfo) : Prop :=
  Forall (λ entry, truthy (oi_pairId entry.2) = false) om.



(** Relations between the counters of statistics computed from these
    events: every fill is partial or full, a succeeded pair was attempted and
    took two fills, and no response without an order id is classified. *)
Definition tallies_consistent (events : list LogEvent) (r : SessionStats)
  : Prop :=
  fills_total (fills r) = fills_partial (fills r) + fills_full (fills r)
  ∧ (succeeded (orderPairs r) ≤ attempted (orderPairs r))%nat
  ∧ (2 * succeeded (orderPairs r) ≤ fills_total (fills r))%nat
  ∧ (orders_accepted (orders r) + orders_rejected (orders r)
     ≤ count response_with_id events)%nat.

(** What a row keeps of the response that gave it. *)
Definition row_origin (r : OrderDetail) : value * value * value :=
  (orderId r, symbol r, latency r).

Definition response_origin (e : LogEvent) : value * value * value :=
  (field e "order_id", field e "symbol", or (field e "latency_ms") VNull).





(** The PAIR_LINK event names the row's order id as one of its legs and the
    row has the pair id of the event. *)
Definition links (e : LogEvent) (r : OrderDetail) : bool :=
  is_sub e "PAIR_LINK"
  && (strict_eq (orderId r) (field e "usdt_order")
      || strict_eq (orderId r) (field e "usdc_order"))
  && bool_decide (pairId r = field e "pair_id").

(** The row has no pair id, or has it from one of these events. *)
Definition pair_id_from (events : list LogEvent) (r : OrderDetail) : Prop :=
  pairId r = VNull ∨ Exists (λ e, links e r = true) events.

Definition linkedRowsSession : StrategySession :=
  mkSession [acceptedA1; acceptedA2;
             pairLinkEvent (VStr "P1") (VStr "A1") (VStr "A2")].

(** * The application (src/log-analyzer/js/app.js) *)

(** [x.toFixed(1)] for the number [num / den], with [0 ≤ num] and [0 < den]:
    the integer [n] of tenths nearest to it, the larger one on a tie, printed
    with one decimal.  The quotients [formatFileSize] passes are a whole
    number of bytes over a power of two, which a JavaScript number holds
    exactly. *)
Definition toFixed1 (num den : Z) : string :=
  let n := ((20 * num + den) / (2 * den))%Z in
  pretty (n / 10)%Z +:+ "." +:+ pretty (n mod 10)%Z.

Definition formatFileSize (bytes : Z) : string :=
  if (bytes <? 1024)%Z then pretty bytes +:+ " B"
  else if (bytes <? 1024 * 1024)%Z then toFixed1 bytes 1024 +:+ " KB"
  else toFixed1 bytes (1024 * 1024) +:+ " MB".

Fixpoint zeros (k : nat) : string :=
  match k with O => "" | S k' => String "0" (zeros k') end.

(** [String(n).padStart(len, '0')] *)
Definition pad (n : N) (len : nat) : string :=
  zeros (len - String.length (pretty n)) +:+ pretty n.

(** What [formatTime] reads of a [Date]: the results of [getHours],
    [getMinutes] and [getSeconds]. *)
Record Clock : Type := {
  getHours : N;
  getMinutes : N;
  getSeconds : N
}.

Definition clock_valid (d : Clock) : Prop :=
  (getHours d < 24)%N ∧ (getMinutes d < 60)%N ∧ (getSeconds d < 60)%N.

(** [formatTime(date)]; [None] is a missing date. *)
Definition formatTime (date : option Clock) : string :=
  match date with
  | None => "-"
  | Some d =>
      pad (getHours d) 2 +:+ ":" +:+ pad (getMinutes d) 2 +:+ ":"
      +:+ pad (getSeconds d) 2
  end.

(** The number two decimal digits stand for. *)
Definition two_digits (s : string) : option N :=
  match s with
  | String a (String b "") =>
      match digit_of a, digit_of b with
      | Some x, Some y => Some (Z.to_N (10 * x + y))
      | _, _ => None
      end
  | _ => None
  end.

(** * Properties *)

(** ** Values *)

Example parseFloat_prefix : parseFloat (VStr " 1.5abc") = Fin (q_of 3 2).
Proof. vm_compute. f_equal. apply Qc_is_canon. reflexivity. Qed.

Example parseFloat_exponent : parseFloat (VStr "25e-1x") = Fin (q_of 5 2).
Proof. vm_compute. f_equal. apply Qc_is_canon. reflexivity. Qed.

Example parseFloat_text : parseFloat (VStr "abc") = NaN.
Proof. reflexivity. Qed.

Example parseFloat_incomplete_exponent : parseFloat (VStr "-.5e+") = Fin (q_of (-1) 2).
Proof. vm_compute. f_equal. apply Qc_is_canon. reflexivity. Qed.

Example parseFloat_lone_point : parseFloat (VStr ".") = NaN.
Proof. reflexivity. Qed.

Example parseFloat_infinity : parseFloat (VStr "-Infinity and beyond") = NegInf.
Proof. reflexivity. Qed.

Example parseFloat_boolean : parseFloat (VBool true) = NaN.
Proof. reflexivity. Qed.

Example zero_is_falsy : number_truthy (parseFloat (VStr "0.00")) = false.
Proof. by vm_compute. Qed.

Example to_string_decimal : to_string (VNum (q_of (-5) 4)) = "-1.25".
Proof. vm_compute. reflexivity. Qed.

Lemma add_assoc (a b c : number) : add a (add b c) = add (add a b) c.
Proof.
  destruct a, b, c; simpl; try reflexivity.
  f_equal. apply Qcplus_assoc.
Qed.


Lemma add_zero_l (a : number) : add zero a = a.
Proof.
  destruct a; simpl; try reflexivity.
  f_equal. apply Qcplus_0_l.
Qed.

Lemma bind_Ok {A B} (a : A) (f : A → result B) : (Ok a ≫= f) = f a.
Proof. reflexivity. Qed.

Lemma bind_Throw {A B} (e : error) (f : A → result B) : (Throw e ≫= f) = Throw e.
Proof. reflexivity. Qed.

(** ** Aggregation *)

Lemma mergeReasons_lookup (m1 m2 : gmap string nat) (k : string) :
  mergeReasons m1 m2 !! k =
  match m1 !! k, m2 !! k with
  | Some c1, Some c2 => Some (c1 + c2)
  | Some c1, None => Some c1
  | None, o => o
  end.
Proof.
  unfold mergeReasons. rewrite lookup_union_with.
  destruct (m1 !! k), (m2 !! k); reflexivity.
Qed.

(** The loop over [Object.entries] computes the merge. *)
Lemma fold_reasons_merge (m1 m2 : gmap string nat) :
  map_fold (λ reason count acc, <[reason := default 0 (acc !! reason) + count]> acc)
    m1 m2 = mergeReasons m1 m2.
Proof.
  induction m2 as [|k c m2 Hk IH] using map_ind.
  - rewrite map_fold_empty. apply map_eq. intros j.
    rewrite mergeReasons_lookup, lookup_empty. by destruct (m1 !! j).
  - rewrite map_fold_insert_L; [|
      intros j1 j2 z1 z2 y Hne _ _;
      rewrite !lookup_insert_ne by done; by apply insert_insert_ne | done].
    rewrite IH. apply map_eq. intros j.
    destruct (decide (k = j)) as [->|Hne].
    + rewrite lookup_insert_eq, !mergeReasons_lookup, lookup_insert_eq, Hk.
      destruct (m1 !! j); simpl; f_equal; lia.
    + rewrite lookup_insert_ne by done.
      rewrite !mergeReasons_lookup, lookup_insert_ne by done. done.
Qed.

Lemma addSessionStats_sum (a b : SessionStats) :
  addSessionStats a b = sumStats a b.
Proof. unfold addSessionStats, sumStats. by rewrite fold_reasons_merge. Qed.



Lemma mergeReasons_empty_l (m : gmap string nat) : mergeReasons ∅ m = m.
Proof.
  apply map_eq. intros k. by rewrite mergeReasons_lookup, lookup_empty.
Qed.



Lemma sumStats_new_l (a : SessionStats) : sumStats new_SessionStats a = a.
Proof.
  destruct a as [? ? [] [] [] [] []].
  unfold sumStats, new_SessionStats; cbn -[add zero mergeReasons Z.add].
  rewrite !add_zero_l, mergeReasons_empty_l, Z.add_0_l. reflexivity.
Qed.




(** ** The reducer *)

Lemma switch_fill (sub : option string) :
  switch_subcategory sub = CASE_ORDER_FILL ↔ sub = Some "ORDER_FILL".
Proof.
  unfold switch_subcategory. destruct sub as [s|]; [|done].
  repeat case_bool_decide; subst; split; intros; simplify_eq; done.
Qed.

Lemma correlateFill_stats e st st' :
  correlateFill e st = Ok st' → stats st' = stats st.
Proof.
  unfold correlateFill. intros H.
  repeat case_match; simplify_eq/=; try done.
  all: destruct (guarded_includes _ "USDT") as [b1|]; simpl in H; [|done].
  all: destruct (if b1 then Ok false else _) as [b2|]; simpl in H; [|done].
  all: by simplify_eq.
Qed.

Lemma processOrderFill_inv e st st' :
  processOrderFill e st = Ok st' →
  ∃ isUsdt isUsdc,
    val_includes (fill_symbol e) "USDT" = Ok isUsdt ∧
    (if isUsdt then Ok false else val_includes (fill_symbol e) "USDC")
      = Ok isUsdc ∧
    stats st' = set_fills (recordFill e isUsdt isUsdc (fills (stats st))) (stats st).
Proof.
  unfold processOrderFill. intros H.
  destruct (val_includes (fill_symbol e) "USDT") as [b1|]; simpl in H; [|done].
  destruct (if b1 then Ok false else _) as [b2|] eqn:E2; simpl in H; [|done].
  exists b1, b2. repeat split; [done|].
  by apply correlateFill_stats in H.
Qed.

Lemma processOrderResponse_fills e st st' :
  processOrderResponse e st = Ok st' → fills (stats st') = fills (stats st).
Proof.
  unfold processOrderResponse. intros H.
  repeat case_match; simplify_eq/=; try done;
  destruct (guarded_includes _ "GTX") as [b1|]; simpl in H; try done;
  repeat case_match; by simplify_eq/=.
Qed.

Lemma processFastChaseEvent_fills e s :
  fills (processFastChaseEvent e s) = fills s.
Proof. unfold processFastChaseEvent. by repeat case_match. Qed.

Lemma processOther_fills e s : fills (processOther e s) = fills s.
Proof. unfold processOther. by repeat case_match. Qed.

Lemma processEvent_skipped e st :
  category e = None → processEvent e st = Ok st.
Proof. intros H. unfold processEvent. by rewrite H. Qed.

Lemma processEvent_fill e st :
  is_Some (category e) → subcategory e = Some "ORDER_FILL" →
  processEvent e st = processOrderFill e st.
Proof.
  intros Hc Hs. unfold processEvent.
  rewrite bool_decide_true by done. by rewrite Hs.
Qed.

Lemma processEvent_not_fill e st st' :
  counted_fill e = false → processEvent e st = Ok st' →
  fills (stats st') = fills (stats st).
Proof.
  unfold counted_fill, processEvent. intros Hn H.
  case_bool_decide as Hc; simpl in *; [|by simplify_eq].
  destruct (switch_subcategory (subcategory e)) eqn:Hsw;
    try (repeat case_match; by simplify_eq/=).
  - simplify_eq. unfold processOrderSubmit. by case_match.
  - by eapply processOrderResponse_fills.
  - apply switch_fill in Hsw. by rewrite Hsw, bool_decide_true in Hn.
  - simplify_eq/=. apply processFastChaseEvent_fills.
  - simplify_eq/=. apply processOther_fills.
Qed.

Lemma recordFill_counters e b1 b2 f :
  fills_total (recordFill e b1 b2 f) = S (fills_total f) ∧
  (fills_partial (recordFill e b1 b2 f) = S (fills_partial f) ∧
   fills_full (recordFill e b1 b2 f) = fills_full f
   ∨ fills_partial (recordFill e b1 b2 f) = fills_partial f ∧
     fills_full (recordFill e b1 b2 f) = S (fills_full f)).
Proof. unfold recordFill; simpl. case_match; auto. Qed.

Lemma processEvent_counted_fill e st st' :
  counted_fill e = true → processEvent e st = Ok st' →
  ∃ b1 b2, stats st' = set_fills (recordFill e b1 b2 (fills (stats st))) (stats st).
Proof.
  unfold counted_fill. intros [Hc Hs]%andb_true_iff H.
  apply bool_decide_eq_true in Hc, Hs.
  rewrite processEvent_fill in H by done.
  apply processOrderFill_inv in H as (b1 & b2 & _ & _ & Hst). by exists b1, b2.
Qed.

(** The invariant and the count, threaded through the loop over the events. *)
Lemma processEvents_fills events st st' :
  processEvents events st = Ok st' →
  fills_total (fills (stats st')) =
    fills_total (fills (stats st)) + length (filter (λ e, counted_fill e = true) events) ∧
  (fills_total (fills (stats st)) =
     fills_partial (fills (stats st)) + fills_full (fills (stats st)) →
   fills_total (fills (stats st')) =
     fills_partial (fills (stats st')) + fills_full (fills (stats st'))).
Proof.
  revert st. induction events as [|e events IH]; intros st H; simpl in H.
  - simplify_eq. simpl. split; [lia|done].
  - destruct (processEvent e st) as [st1|] eqn:He; simpl in H; [|done].
    apply IH in H as [Hn Hi]. rewrite filter_cons.
    destruct (counted_fill e) eqn:Hf.
    + apply (processEvent_counted_fill _ _ _ Hf) in He as (b1 & b2 & Hst).
      pose proof (recordFill_counters e b1 b2 (fills (stats st))) as Hr.
      rewrite Hst in Hn, Hi.
      change (fills (set_fills ?x _)) with x in Hn, Hi.
      rewrite decide_True by done. simpl length.
      destruct Hr as [Ht [[Hp Hf']|[Hp Hf']]]; rewrite Ht, Hp, Hf' in *;
        (split; [lia|]); intros ?; apply Hi; lia.
    + apply (processEvent_not_fill _ _ _ Hf) in He.
      rewrite He in Hn, Hi. rewrite decide_False by done. done.
Qed.

(** C10. When [calculateSessionStats] returns, [fills.total] is the sum of
    [fills.partial] and [fills.full], and it is the number of ORDER_FILL
    events that passed the guard: such an event adds one to [fills.total] and
    one to exactly one of [fills.partial] and [fills.full], and no other
    event changes any of the three. *)
Theorem fills_total_partial_full (s : StrategySession) (r : SessionStats) :
  calculateSessionStats s = Ok r →
  fills_total (fills r) = fills_partial (fills r) + fills_full (fills r)
  ∧ fills_total (fills r)
    = length (filter (λ e, counted_fill e = true) (s_events s))
  ∧ ∀ e st st', processEvent e st = Ok st' →
      let f := fills (stats st) in
      let f' := fills (stats st') in
      if counted_fill e then
        fills_total f' = S (fills_total f)
        ∧ (fills_partial f' = S (fills_partial f) ∧ fills_full f' = fills_full f
           ∨ fills_partial f' = fills_partial f ∧ fills_full f' = S (fills_full f))
      else
        fills_total f' = fills_total f ∧ fills_partial f' = fills_partial f
        ∧ fills_full f' = fills_full f.
Proof.
  intros H. unfold calculateSessionStats in H.
  destruct (processEvents _ _) as [st|] eqn:Hp; simpl in H; [|done].
  simplify_eq. apply processEvents_fills in Hp as [Hn Hi].
  change (fills (set_orderPairs _ ?x)) with (fills x).
  split; [by apply Hi|]. split; [by rewrite Hn|].
  intros e st0 st' He. simpl. destruct (counted_fill e) eqn:Hf.
  - apply (processEvent_counted_fill _ _ _ Hf) in He as (b1 & b2 & ->).
    apply recordFill_counters.
  - apply (processEvent_not_fill _ _ _ Hf) in He. by rewrite He.
Qed.

Lemma fills_total_partial_full_witness :
  ∃ r, calculateSessionStats twoFillSession = Ok r
       ∧ fills_total (fills r) = 2
       ∧ fills_total (fills r) = fills_partial (fills r) + fills_full (fills r).
Proof.
  destruct (calculateSessionStats twoFillSession) as [r|] eqn:H;
    [|by vm_compute in H].
  exists r. split; [done|].
  destruct (fills_total_partial_full twoFillSession r H) as (Hsum & Hcount & _).
  split; [|done]. rewrite Hcount. reflexivity.
Defined.

(** ** The pair table *)

Lemma Map_get_None {V} (k : value) (m : JSMap V) :
  Map_get k m = None ↔ k ∉ m.*1.
Proof.
  induction m as [|[k' v] m IH]; simpl.
  - split; [intros _; apply not_elem_of_nil | done].
  - rewrite not_elem_of_cons. case_decide; subst.
    + split; [done | intros [? _]; done].
    + rewrite IH. split; [intros ?; split; [congruence | done] | by intros [_ ?]].
Qed.

Lemma Map_set_keys {V} (k : value) (v : V) (m : JSMap V) :
  (Map_set k v m).*1 =
  match Map_get k m with Some _ => m.*1 | None => m.*1 ++ [k] end.
Proof.
  induction m as [|[k' v'] m IH]; csimpl; [done|].
  case_decide; subst; csimpl; [done|].
  rewrite IH. by destruct (Map_get k m).
Qed.

Lemma Map_set_NoDup {V} (k : value) (v : V) (m : JSMap V) :
  NoDup m.*1 → NoDup (Map_set k v m).*1.
Proof.
  intros Hm. rewrite Map_set_keys.
  destruct (Map_get k m) eqn:Hk; [done|].
  apply Map_get_None in Hk. apply NoDup_app. split_and!; [done| |].
  - intros x Hx ->%list_elem_of_singleton. done.
  - apply NoDup_singleton.
Qed.

Lemma Map_get_set_eq {V} (k : value) (v : V) (m : JSMap V) :
  Map_get k (Map_set k v m) = Some v.
Proof.
  induction m as [|[k' v'] m IH]; simpl.
  - by rewrite decide_True.
  - case_decide; subst; simpl; [by rewrite decide_True | by rewrite decide_False].
Qed.


Lemma ensurePair_NoDup (id : value) (pm : JSMap PairInfo) :
  NoDup pm.*1 → NoDup (ensurePair id pm).*1.
Proof.
  unfold ensurePair. destruct (Map_has id pm); [done | apply Map_set_NoDup].
Qed.

Lemma ensurePair_get (id : value) (pm : JSMap PairInfo) :
  is_Some (Map_get id (ensurePair id pm)).
Proof.
  unfold ensurePair, Map_has. destruct (Map_get id pm) eqn:H.
  - by rewrite H.
  - by rewrite Map_get_set_eq.
Qed.

Lemma correlateFill_pairs_NoDup e st st' :
  correlateFill e st = Ok st' → NoDup (pairMap st).*1 → NoDup (pairMap st').*1.
Proof.
  unfold correlateFill. intros H Hn.
  repeat case_match; simplify_eq/=; try done.
  all: destruct (guarded_includes _ "USDT") as [b1|]; simpl in H; [|done].
  all: destruct (if b1 then Ok false else _) as [b2|]; simpl in H; [|done].
  all: simplify_eq/=; by apply Map_set_NoDup, ensurePair_NoDup.
Qed.

Lemma processOrderResponse_pairMap e st st' :
  processOrderResponse e st = Ok st' → pairMap st' = pairMap st.
Proof.
  unfold processOrderResponse. intros H.
  repeat case_match; simplify_eq/=; try done;
  destruct (guarded_includes _ "GTX") as [b1|]; simpl in H; try done;
  repeat case_match; by simplify_eq/=.
Qed.

Lemma processOrderResponse_orderPairs e st st' :
  processOrderResponse e st = Ok st' →
  orderPairs (stats st') = orderPairs (stats st).
Proof.
  unfold processOrderResponse. intros H.
  repeat case_match; simplify_eq/=; try done;
  destruct (guarded_includes _ "GTX") as [b1|]; simpl in H; try done;
  repeat case_match; by simplify_eq/=.
Qed.

Lemma processOrderFill_pairs_NoDup e st st' :
  processOrderFill e st = Ok st' → NoDup (pairMap st).*1 → NoDup (pairMap st').*1.
Proof.
  unfold processOrderFill. intros H.
  destruct (val_includes (fill_symbol e) "USDT") as [b1|]; simpl in H; [|done].
  destruct (if b1 then Ok false else _) as [b2|]; simpl in H; [|done].
  intros Hn. by apply (correlateFill_pairs_NoDup _ _ _ H).
Qed.

Lemma processFastChaseEvent_orderPairs e s :
  orderPairs (processFastChaseEvent e s) = orderPairs s.
Proof. unfold processFastChaseEvent. by repeat case_match. Qed.

Lemma processOther_orderPairs e s : orderPairs (processOther e s) = orderPairs s.
Proof. unfold processOther. by repeat case_match. Qed.

(** No arm of [processEvent] touches [orderPairs], and the keys of the pair
    table stay distinct. *)
Lemma processEvent_pairs e st st' :
  processEvent e st = Ok st' →
  orderPairs (stats st') = orderPairs (stats st)
  ∧ (NoDup (pairMap st).*1 → NoDup (pairMap st').*1).
Proof.
  unfold processEvent. intros H.
  case_bool_decide as Hc; simpl in *; [|by simplify_eq].
  destruct (switch_subcategory (subcategory e)) eqn:Hsw;
    try (repeat case_match; by simplify_eq/=).
  - simplify_eq. unfold processOrderSubmit. by case_match.
  - split; [by eapply processOrderResponse_orderPairs|].
    by rewrite (processOrderResponse_pairMap _ _ _ H).
  - split; [|by eapply processOrderFill_pairs_NoDup].
    apply processOrderFill_inv in H as (b1 & b2 & _ & _ & ->). done.
  - case_match; simplify_eq; [|done].
    split; [done | apply ensurePair_NoDup].
  - case_match; simplify_eq; [|done].
    split; [done | apply ensurePair_NoDup].
  - simplify_eq/=. split; [apply processFastChaseEvent_orderPairs | done].
  - simplify_eq/=. split; [apply processOther_orderPairs | done].
Qed.

Lemma processEvents_pairs events st st' :
  processEvents events st = Ok st' →
  orderPairs (stats st') = orderPairs (stats st)
  ∧ (NoDup (pairMap st).*1 → NoDup (pairMap st').*1).
Proof.
  revert st. induction events as [|e events IH]; intros st H; simpl in H.
  - by simplify_eq.
  - destruct (processEvent e st) as [st1|] eqn:He; simpl in H; [|done].
    apply IH in H as [H1 H2]. apply processEvent_pairs in He as [H3 H4].
    split; [congruence | auto].
Qed.

Lemma fold_countPair (l : JSMap PairInfo) (op : OrderPairs) :
  attempted (fold_left countPair l op) = attempted op + length l
  ∧ succeeded (fold_left countPair l op)
    = succeeded op + length (filter bothFilled l).
Proof.
  revert op. induction l as [|[k pi] l IH]; intros op.
  - simpl. split; lia.
  - cbn [fold_left]. destruct (IH (countPair op (k, pi))) as [-> ->].
    rewrite filter_cons. unfold countPair; cbn [attempted succeeded snd length].
    case_decide as Hb; unfold bothFilled in Hb; cbn [snd] in Hb.
    + destruct Hb as [-> ->]. cbn [andb length]. split; lia.
    + destruct (usdtFilled pi), (usdcFilled pi); cbn [andb];
        try (split; lia).
Qed.

(** ** Order pairs *)

Lemma processEvent_response e st :
  is_Some (category e) → subcategory e = Some "ORDER_RESPONSE" →
  processEvent e st = processOrderResponse e st.
Proof.
  intros Hc Hs. unfold processEvent.
  rewrite bool_decide_true by done. by rewrite Hs.
Qed.







Lemma Map_set_tail {V} (k k' : value) (v x : V) (m : JSMap V) :
  k ≠ k' → Map_set k' v ((k, x) :: m) = (k, x) :: Map_set k' v m.
Proof. intros. simpl. by rewrite decide_False. Qed.




Lemma calculateSessionStats_pairs s st :
  processEvents (s_events s) (initialState s) = Ok st →
  NoDup (pairMap st).*1
  ∧ ∃ r, calculateSessionStats s = Ok r
      ∧ attempted (orderPairs r) = length (pairMap st)
      ∧ succeeded (orderPairs r) = length (filter bothFilled (pairMap st)).
Proof.
  intros H. destruct (processEvents_pairs _ _ _ H) as [Hop Hnd].
  split; [apply Hnd; constructor|].
  unfold calculateSessionStats. rewrite H, bind_Ok. eexists. split; [done|].
  cbn [orderPairs set_orderPairs].
  destruct (fold_countPair (pairMap st) (orderPairs (stats st))) as [-> ->].
  by rewrite Hop.
Qed.




(** ** Error classification *)

Lemma msg_includes_includes (msg needle : string) :
  needle ≠ "" → msg_includes msg needle = includes needle msg.
Proof.
  intros Hn. unfold msg_includes. case_bool_decide as Hm; [|done].
  subst. destruct needle; done.
Qed.

Lemma switch_default (e : LogEvent) :
  unhandled e → switch_subcategory (subcategory e) = CASE_default.
Proof.
  unfold unhandled, switch_subcategory. intros H.
  destruct (subcategory e) as [s|]; [|done].
  specialize (H s eq_refl). unfold handledSubcategories in H.
  repeat (case_bool_decide; [subst; exfalso; apply H; repeat constructor|]).
  done.
Qed.

(** C4 (amended). An event at ERROR level that carries a category and whose
    subcategory has no arm of its own increments exactly one error counter:
    [timeouts] if the message contains "timeout", else [apiErrors] if it
    contains "API", else [other]; nothing else changes. *)
Theorem error_level_classified (e : LogEvent) (st : State) :
  is_Some (category e) → unhandled e → level e = "ERROR" →
  ∃ st', processEvent e st = Ok st'
    ∧ orderMap st' = orderMap st ∧ pairMap st' = pairMap st
    ∧ stats st' = set_errors (errors (stats st')) (stats st)
    ∧ gtxRejections (errors (stats st')) = gtxRejections (errors (stats st))
    ∧ let er := errors (stats st) in
      let er' := errors (stats st') in
      if includes "timeout" (message e) then
        timeouts er' = S (timeouts er) ∧ apiErrors er' = apiErrors er
        ∧ other er' = other er
      else if includes "API" (message e) then
        timeouts er' = timeouts er ∧ apiErrors er' = S (apiErrors er)
        ∧ other er' = other er
      else
        timeouts er' = timeouts er ∧ apiErrors er' = apiErrors er
        ∧ other er' = S (other er).
Proof.
  intros Hc Hu Hl. eexists. split.
  { unfold processEvent. rewrite bool_decide_true by done.
    rewrite (switch_default e Hu). reflexivity. }
  unfold processOther. rewrite bool_decide_true by done.
  rewrite !msg_includes_includes by done.
  destruct (includes "timeout" (message e)); [by repeat split|].
  destruct (includes "API" (message e)); by repeat split.
Qed.

Lemma error_level_classified_witness :
  errorCounts (mkSession [taggedError])
  = Ok {| gtxRejections := 0; apiErrors := 1; timeouts := 0; other := 0 |}.
Proof.
  destruct (error_level_classified taggedError
              (initialState (mkSession [taggedError])))
    as (st' & Hp & _ & _ & _ & Hg & Hcount).
  - by exists AUDIT.
  - intros s [= <-] Hin. unfold handledSubcategories in Hin.
    repeat (apply elem_of_cons in Hin as [?|Hin]; [done|]).
    by apply not_elem_of_nil in Hin.
  - reflexivity.
  - unfold errorCounts, calculateSessionStats.
    cbn [s_events mkSession processEvents]. rewrite Hp. cbn.
    destruct (errors (stats st')) as [g a t o]. cbn in Hg, Hcount.
    destruct Hcount as (-> & -> & ->). by rewrite Hg.
Defined.

(** C4, as stated, fails: an ERROR event that carries no category leaves
    every error counter at zero. *)
Lemma untagged_error_not_counted :
  includes "timeout" (message untaggedError) = true
  ∧ category untaggedError = None
  ∧ errorCounts (mkSession [untaggedError])
    = Ok {| gtxRejections := 0; apiErrors := 0; timeouts := 0; other := 0 |}.
Proof. repeat split. Qed.

Lemma processEvent_state e st :
  is_Some (category e) → subcategory e = Some "ORDER_STATE" →
  processEvent e st =
  if msg_includes (message e) "GTX rejected"
  then Ok (set_stats (count_gtx (stats st)) st) else Ok st.
Proof.
  intros Hc Hs. unfold processEvent.
  rewrite bool_decide_true by done. by rewrite Hs.
Qed.

(** C7. An ORDER_STATE event whose message contains "GTX rejected" adds one
    to [errors.gtxRejections], whatever the state: an increment that the
    handling of an ORDER_RESPONSE made for the same rejection stays, so the
    two together count two. *)
Theorem order_state_gtx_counted (e : LogEvent) (st : State) :
  is_Some (category e) → subcategory e = Some "ORDER_STATE" →
  includes "GTX rejected" (message e) = true →
  (∃ st', processEvent e st = Ok st'
     ∧ gtxRejections (errors (stats st')) = S (gtxRejections (errors (stats st)))
     ∧ stats st' = set_errors (incr_gtxRejections (errors (stats st))) (stats st)
     ∧ orderMap st' = orderMap st ∧ pairMap st' = pairMap st)
  ∧ ∀ response st0,
      processEvent response st0 = Ok st →
      gtxRejections (errors (stats st)) = S (gtxRejections (errors (stats st0))) →
      ∃ st', processEvents [response; e] st0 = Ok st'
        ∧ gtxRejections (errors (stats st'))
          = S (S (gtxRejections (errors (stats st0)))).
Proof.
  intros Hc Hs Hm.
  assert (Hstep : processEvent e st = Ok (set_stats (count_gtx (stats st)) st)).
  { rewrite processEvent_state by done.
    by rewrite msg_includes_includes, Hm. }
  split.
  - eexists. split; [exact Hstep|]. by repeat split.
  - intros response st0 Hr Hg. eexists. split.
    + cbn [processEvents]. rewrite Hr, bind_Ok, Hstep. reflexivity.
    + cbn. by rewrite Hg.
Qed.

Lemma order_state_gtx_counted_witness :
  ∃ st', processEvents [gtxResponse; gtxState] (initialState (mkSession []))
         = Ok st'
    ∧ gtxRejections (errors (stats st')) = 2.
Proof.
  destruct (processEvent gtxResponse (initialState (mkSession [])))
    as [st|] eqn:Hr; [|by vm_compute in Hr].
  destruct (order_state_gtx_counted gtxState st) as [_ Htwo];
    [by exists AUDIT | reflexivity | reflexivity |].
  destruct (Htwo gtxResponse _ Hr) as (st' & Hp & Hg).
  { vm_compute in Hr. injection Hr as <-. reflexivity. }
  exists st'. split; [exact Hp | exact Hg].
Defined.

Example gtx_counted_twice :
  errorCounts gtxRejectedSession
  = Ok {| gtxRejections := 2; apiErrors := 0; timeouts := 0; other := 0 |}.
Proof. vm_compute. reflexivity. Qed.

(** ** Order responses *)

Lemma guarded_includes_ok (v : value) (needle : string) :
  needle ≠ "" → includes_ok v = true →
  guarded_includes v needle
  = Ok (match v with VStr s => includes needle s | _ => false end).
Proof.
  unfold includes_ok, guarded_includes. intros Hn H.
  destruct v as [| |q|b|s]; cbn [truthy val_includes] in *; try done.
  - by destruct (bool_decide (q = Q2Qc 0)).
  - by destruct b.
  - case_bool_decide; subst; [by destruct needle | done].
Qed.

(** C3 (amended). An ORDER_RESPONSE that passes the guard and carries an
    order id is classified as accepted when its message contains
    "Order accepted" or, for an order of the order table only, when the
    status field is accepted or NEW; else as rejected when its message
    contains "Order rejected".  [orders.accepted] or [orders.rejected] is
    incremented accordingly, the status of an order of the table is updated,
    and a rejection that names GTX in the error field or in the message
    increments [errors.gtxRejections].  Without an order id none of the
    three counters changes. *)
Theorem order_response_classified (e : LogEvent) (st : State) :
  is_Some (category e) → subcategory e = Some "ORDER_RESPONSE" →
  includes_ok (field e "error") = true →
  ∃ st', processEvent e st = Ok st'
    ∧ pairMap st' = pairMap st
    ∧ let oid := field e "order_id" in
      let o := orders (stats st) in
      let o' := orders (stats st') in
      let g := gtxRejections (errors (stats st)) in
      let g' := gtxRejections (errors (stats st')) in
      match verdict e (Map_has oid (orderMap st)) with
      | Accepted =>
          orders_accepted o' = S (orders_accepted o)
          ∧ orders_rejected o' = orders_rejected o ∧ g' = g
          ∧ orderMap st' = withStatus oid "accepted" (orderMap st)
      | Rejected gtx =>
          orders_accepted o' = orders_accepted o
          ∧ orders_rejected o' = S (orders_rejected o)
          ∧ g' = (if gtx then S g else g)
          ∧ orderMap st' = withStatus oid "rejected" (orderMap st)
      | Unclassified =>
          orders_accepted o' = orders_accepted o
          ∧ orders_rejected o' = orders_rejected o ∧ g' = g
          ∧ orderMap st' = orderMap st
      end.
Proof.
  intros Hc Hs He. rewrite processEvent_response by done.
  unfold processOrderResponse, verdict, namesGTX, statusAccepted, withStatus,
    Map_has.
  rewrite (guarded_includes_ok _ "GTX" ltac:(done) He).
  rewrite !msg_includes_includes by done.
  destruct (truthy (field e "latency_ms")), (truthy (field e "order_id")),
    (Map_get (field e "order_id") (orderMap st)) as [order|],
    (includes "Order accepted" (message e)),
    (strict_eq (field e "status") (VStr "accepted")),
    (strict_eq (field e "status") (VStr "NEW")),
    (includes "Order rejected" (message e)),
    (match field e "error" with VStr s => includes "GTX" s | _ => false end),
    (includes "GTX" (message e));
    cbn [negb andb orb mbind result_bind];
    (eexists; split; [reflexivity|]); by repeat split.
Qed.

Lemma order_response_classified_witness :
  responseCounts (mkSession [gtxResponse]) = Ok (0, 1, 1).
Proof.
  destruct (order_response_classified gtxResponse
              (initialState (mkSession [gtxResponse])))
    as (st' & Hp & _ & Hv); [by exists AUDIT | reflexivity | reflexivity |].
  unfold responseCounts, calculateSessionStats.
  cbn [s_events mkSession processEvents]. rewrite Hp. cbn.
  cbn in Hv. destruct Hv as (-> & -> & -> & _). reflexivity.
Defined.

(** C3, as stated, fails: a response whose message says "Order rejected" and
    names GTX but whose payload has no order id counts nothing, and a status
    field alone does not make an order accepted that is not in the table,
    while it does for one that is. *)
Lemma response_not_classified :
  includes "Order rejected" (message rejectedNoId) = true
  ∧ responseCounts (mkSession [rejectedNoId]) = Ok (0, 0, 0)
  ∧ field statusOnlyResponse "status" = VStr "NEW"
  ∧ responseCounts (mkSession [statusOnlyResponse]) = Ok (0, 0, 0)
  ∧ responseCounts statusOnlySession = Ok (1, 0, 0).
Proof. repeat split. Qed.

(** ** Fills *)

Lemma fill_symbol_ok (e : LogEvent) :
  includes_ok (field e "symbol") = true →
  fill_symbol e = VStr (fill_symbol_text e).
Proof.
  unfold fill_symbol_text, fill_symbol, or, includes_ok. intros H.
  destruct (field e "symbol") as [| |q|b|s]; cbn [truthy] in *;
    repeat case_match; done.
Qed.







(** ** Matching responses to submissions *)

Lemma takePending_found (sym : value) (before after : list SubmitInfo)
  (s : SubmitInfo) :
  si_symbol s = sym → Forall (λ x, si_symbol x ≠ sym) before →
  takePending sym (before ++ s :: after) = (Some s, before ++ after).
Proof.
  intros Hs Hb. unfold takePending.
  assert (list_find (λ x, si_symbol x = sym) (before ++ s :: after)
          = Some (length before, s)) as ->.
  { apply list_find_Some. split_and!.
    - by rewrite list_lookup_middle.
    - done.
    - intros j y Hj Hlt. rewrite lookup_app_l in Hj by done.
      rewrite Forall_forall in Hb. apply Hb.
      by apply list_elem_of_lookup_2 in Hj. }
  f_equal. induction before as [|b before IH]; [done|].
  simpl. f_equal. apply IH. by inversion Hb.
Qed.

Lemma takePending_none (sym : value) (pending : list SubmitInfo) :
  Forall (λ x, si_symbol x ≠ sym) pending →
  takePending sym pending = (None, pending).
Proof.
  intros H. unfold takePending.
  by rewrite (proj2 (list_find_None (λ x, si_symbol x = sym) pending) H).
Qed.

Lemma detailStep_response e st :
  subcategory e = Some "ORDER_RESPONSE" → truthy (field e "order_id") = true →
  detailStep st e =
  {| ds_orders :=
       ds_orders st
       ++ [response_row e (takePending (field e "symbol") (ds_pending st)).1];
     ds_orderMap :=
       Map_set (field e "order_id") (length (ds_orders st)) (ds_orderMap st);
     ds_pending := (takePending (field e "symbol") (ds_pending st)).2 |}.
Proof.
  intros Hs Hid. unfold detailStep, is_sub. rewrite Hs, Hid.
  rewrite bool_decide_false by done. rewrite bool_decide_true by done.
  cbn [negb]. by destruct (takePending _ _).
Qed.

Lemma rowStep_response e st :
  subcategory e = Some "ORDER_RESPONSE" → truthy (field e "order_id") = true →
  rowStep st e =
  {| rs_rows :=
       rs_rows st
       ++ [response_row e (takePending (field e "symbol") (rs_pending st)).1];
     rs_orderMap :=
       Map_set (field e "order_id")
         (baseOrder_of e (takePending (field e "symbol") (rs_pending st)).1)
         (rs_orderMap st);
     rs_pending := (takePending (field e "symbol") (rs_pending st)).2 |}.
Proof.
  intros Hs Hid. unfold rowStep, is_sub. rewrite Hs, Hid.
  rewrite bool_decide_false by done. rewrite bool_decide_true by done.
  cbn [negb]. by destruct (takePending _ _).
Qed.

(** C5 (amended). In both extractions an ORDER_SUBMIT joins the end of the
    pending queue, and an ORDER_RESPONSE that carries an order id is matched
    to the earliest pending submission with the same symbol: that submission
    leaves the queue and gives the row its time, side, quantity and price.
    When no pending submission has the symbol, the row has the time of the
    response and null side, quantity and price, and the queue is as before.
    A response without an order id is skipped. *)
Theorem response_matches_earliest_pending (e : LogEvent) :
  subcategory e = Some "ORDER_RESPONSE" →
  let sym := field e "symbol" in
  (truthy (field e "order_id") = true →
   (∀ before s after,
      si_symbol s = sym → Forall (λ x, si_symbol x ≠ sym) before →
      let row := response_row e (Some s) in
      submitTime row = si_timestamp s ∧ side row = si_side s
      ∧ quantity row = si_quantity s ∧ price row = si_price s
      ∧ (∀ st, ds_pending st = before ++ s :: after →
           ds_orders (detailStep st e) = ds_orders st ++ [row]
           ∧ ds_pending (detailStep st e) = before ++ after)
      ∧ (∀ st, rs_pending st = before ++ s :: after →
           rs_rows (rowStep st e) = rs_rows st ++ [row]
           ∧ rs_pending (rowStep st e) = before ++ after))
   ∧ (let row := response_row e None in
      submitTime row = timestamp e ∧ side row = VNull
      ∧ quantity row = VNull ∧ price row = VNull
      ∧ (∀ st, Forall (λ x, si_symbol x ≠ sym) (ds_pending st) →
           ds_orders (detailStep st e) = ds_orders st ++ [row]
           ∧ ds_pending (detailStep st e) = ds_pending st)
      ∧ (∀ st, Forall (λ x, si_symbol x ≠ sym) (rs_pending st) →
           rs_rows (rowStep st e) = rs_rows st ++ [row]
           ∧ rs_pending (rowStep st e) = rs_pending st)))
  ∧ (truthy (field e "order_id") = false →
     ∀ st st2, detailStep st e = st ∧ rowStep st2 e = st2)
  ∧ (∀ submit st st2, subcategory submit = Some "ORDER_SUBMIT" →
       ds_pending (detailStep st submit) = ds_pending st ++ [submitInfo_of submit]
       ∧ rs_pending (rowStep st2 submit) = rs_pending st2 ++ [submitInfo_of submit]).
Proof.
  intros Hs sym. split; [|split].
  - intros Hid. split.
    + intros before s after Hsym Hb row. split_and!; try done.
      * intros st Hp. rewrite detailStep_response by done.
        cbn [ds_orders ds_pending]. fold sym.
        by rewrite Hp, takePending_found.
      * intros st Hp. rewrite rowStep_response by done.
        cbn [rs_rows rs_pending]. fold sym.
        by rewrite Hp, takePending_found.
    + intros row. split_and!; try done.
      * intros st Hp. rewrite detailStep_response by done.
        cbn [ds_orders ds_pending]. fold sym.
        by rewrite takePending_none.
      * intros st Hp. rewrite rowStep_response by done.
        cbn [rs_rows rs_pending]. fold sym.
        by rewrite takePending_none.
  - intros Hid st st2. unfold detailStep, rowStep, is_sub. rewrite Hs, Hid.
    rewrite bool_decide_false by done. by rewrite bool_decide_true.
  - intros submit st st2 Hsub. unfold detailStep, rowStep, is_sub. rewrite Hsub.
    by rewrite bool_decide_true.
Qed.

Lemma response_matches_earliest_pending_witness :
  let st := {| ds_orders := []; ds_orderMap := [];
               ds_pending := [submitInfo_of buySubmit; submitInfo_of sellSubmit] |} in
  ds_orders (detailStep st acceptedA1)
  = [response_row acceptedA1 (Some (submitInfo_of buySubmit))]
  ∧ ds_pending (detailStep st acceptedA1) = [submitInfo_of sellSubmit].
Proof.
  intros st.
  destruct (response_matches_earliest_pending acceptedA1 eq_refl) as [Hm _].
  destruct (Hm eq_refl) as [Hfound _].
  destruct (Hfound [] (submitInfo_of buySubmit) [submitInfo_of sellSubmit]
              eq_refl (Forall_nil_2 _)) as (_ & _ & _ & _ & Hd & _).
  exact (Hd st eq_refl).
Defined.

Example fifo_per_symbol :
  map (λ r, (orderId r, submitTime r, side r))
    (extractOrderDetails
       [mkSession [buySubmit; sellSubmit; acceptedA1; acceptedA2]])
  = [(VStr "A1", 1000%Z, VStr "BUY"); (VStr "A2", 1200%Z, VNull)].
Proof. by vm_compute. Qed.

(** C5, as stated, fails: a response without an order id is not matched;
    the pending submission with its symbol stays in the queue and no row is
    produced. *)
Lemma response_without_id_not_matched :
  field rejectedNoId "symbol" = VStr "ETHUSDT"
  ∧ extractOrderDetails [skippedResponseSession] = []
  ∧ map si_symbol (ds_pending (detailPass [skippedResponseSession]))
    = [VStr "ETHUSDT"]
  ∧ rs_rows (rowPass (s_events skippedResponseSession)) = []
  ∧ map si_symbol (rs_pending (rowPass (s_events skippedResponseSession)))
    = [VStr "ETHUSDT"].
Proof. repeat split. Qed.

(** ** Fill rows *)

Lemma removeAccepted_cons (oid : value) (x : OrderDetail) (l : list OrderDetail) :
  removeAccepted oid (x :: l)
  = if decide (is_accepted_row oid x) then l else x :: removeAccepted oid l.
Proof.
  unfold removeAccepted. cbn [list_find]. case_decide; [done|].
  by destruct (list_find (is_accepted_row oid) l) as [[i y]|].
Qed.

Lemma removeAccepted_app_other (oid : value) (rows : list OrderDetail)
  (r : OrderDetail) :
  ¬ is_accepted_row oid r →
  removeAccepted oid (rows ++ [r]) = removeAccepted oid rows ++ [r].
Proof.
  intros Hr. induction rows as [|x rows IH]; cbn [app].
  - rewrite removeAccepted_cons, decide_False by done. done.
  - rewrite !removeAccepted_cons. case_decide; [done|]. by rewrite IH.
Qed.





Lemma fill_row_not_accepted e base oid : ¬ is_accepted_row oid (fill_row e base).
Proof. intros [_ H]. cbn in H. by case_match. Qed.


Lemma insert_by_length {A} (key : A → Z) (x : A) (l : list A) :
  length (insert_by key x l) = S (length l).
Proof. induction l as [|y l IH]; simpl; [done|]. case_match; simpl; lia. Qed.

Lemma sort_by_length {A} (key : A → Z) (l : list A) :
  length (sort_by key l) = length l.
Proof. induction l as [|x l IH]; simpl; [done|]. by rewrite insert_by_length, IH. Qed.



Lemma detailPass_concat (sessions : list StrategySession) :
  detailPass sessions
  = fold_left detailStep (concat (map s_events sessions))
      {| ds_orders := []; ds_orderMap := []; ds_pending := [] |}.
Proof.
  unfold detailPass. generalize {| ds_orders := []; ds_orderMap := [];
                                   ds_pending := [] |}.
  induction sessions as [|s sessions IH]; intros st; simpl; [done|].
  by rewrite fold_left_app, IH.
Qed.





Example fill_supersedes_accepted :
  rowStatuses [acceptedThenFilledSession] = Ok [[(VStr "A1", "filled")]].
Proof. by vm_compute. Qed.


(** ** The reducer returns on well-typed payloads *)

Lemma Map_get_elem_of {V} (k : value) (v : V) (m : JSMap V) :
  Map_get k m = Some v → (k, v) ∈ m.
Proof.
  induction m as [|[k' v'] m IH]; simpl; [done|].
  case_decide; subst.
  - intros [= ->]. apply list_elem_of_here.
  - intros Hget. apply list_elem_of_further. by apply IH.
Qed.

Lemma Map_set_Forall {V} (P : value * V → Prop) (k : value) (v : V)
  (m : JSMap V) :
  P (k, v) → Forall P m → Forall P (Map_set k v m).
Proof.
  intros Hk Hm. induction Hm as [|[k' v'] m Hx Hm IH]; simpl.
  - by constructor.
  - case_decide; subst; by constructor.
Qed.

Lemma orders_ok_get (om : JSMap OrderInfo) (k : value) (o : OrderInfo) :
  orders_ok om → Map_get k om = Some o → includes_ok (oi_symbol o) = true.
Proof.
  intros Hok Hget. apply Map_get_elem_of in Hget.
  unfold orders_ok in Hok. rewrite Forall_forall in Hok. by apply Hok in Hget.
Qed.

Lemma orders_ok_status (om : JSMap OrderInfo) (k : value) (o : OrderInfo)
  (s : string) :
  orders_ok om → Map_get k om = Some o →
  orders_ok (Map_set k (set_oi_status s o) om).
Proof.
  intros Hok Hget. apply Map_set_Forall; [|done].
  cbn. by eapply orders_ok_get.
Qed.

Ltac returns_with tac := eexists; split; [reflexivity | cbn; tac].

Lemma processOrderResponse_returns e st :
  includes_ok (field e "error") = true → orders_ok (orderMap st) →
  ∃ st', processOrderResponse e st = Ok st' ∧ orders_ok (orderMap st').
Proof.
  intros He Hok. unfold processOrderResponse.
  rewrite (guarded_includes_ok _ "GTX" ltac:(done) He).
  destruct (truthy (field e "order_id")); [|returns_with done].
  destruct (Map_get (field e "order_id") (orderMap st)) as [order|] eqn:Hget.
  - repeat case_match; cbn [mbind result_bind]; repeat case_match;
      eexists; (split; [reflexivity|]); cbn [orderMap];
      first [done | by apply orders_ok_status].
  - repeat case_match; cbn [mbind result_bind]; repeat case_match;
      returns_with done.
Qed.

Lemma correlateFill_returns e st :
  orders_ok (orderMap st) →
  ∃ st', correlateFill e st = Ok st' ∧ orders_ok (orderMap st').
Proof.
  intros Hok. unfold correlateFill.
  destruct (truthy (field e "order_id")); [|returns_with done].
  destruct (Map_get (field e "order_id") (orderMap st)) as [order|] eqn:Hget;
    [|returns_with done].
  pose proof (orders_ok_get _ _ _ Hok Hget) as Hsym.
  pose proof (orders_ok_status _ _ _
                (if msg_includes (message e) "Partial fill"
                 then "partial" else "filled") Hok Hget) as Hok'.
  destruct (truthy (oi_pairId order)); [|returns_with done].
  destruct (ensurePair_get (oi_pairId order) (pairMap st)) as [pr ->].
  rewrite (guarded_includes_ok _ "USDT" ltac:(done) Hsym),
    (guarded_includes_ok _ "USDC" ltac:(done) Hsym), bind_Ok.
  destruct (match oi_symbol order with VStr s => includes "USDT" s | _ => false end);
    rewrite bind_Ok; returns_with done.
Qed.

Lemma processOrderFill_returns e st :
  includes_ok (field e "symbol") = true → orders_ok (orderMap st) →
  ∃ st', processOrderFill e st = Ok st' ∧ orders_ok (orderMap st').
Proof.
  intros Hs Hok. unfold processOrderFill.
  rewrite (fill_symbol_ok e Hs). cbn [val_includes]. rewrite bind_Ok.
  destruct (includes "USDT" (fill_symbol_text e)); rewrite bind_Ok;
    by apply correlateFill_returns.
Qed.

Lemma processEvent_returns e st :
  well_typed e = true → orders_ok (orderMap st) →
  ∃ st', processEvent e st = Ok st' ∧ orders_ok (orderMap st').
Proof.
  unfold well_typed. intros [Hs He]%andb_true_iff Hok. unfold processEvent.
  case_bool_decide; cbn [negb]; [|returns_with done].
  destruct (switch_subcategory (subcategory e));
    try (repeat case_match; returns_with done).
  - eexists. split; [reflexivity|]. unfold processOrderSubmit.
    case_match; [|done]. cbn [orderMap set_orderMap set_stats].
    by apply Map_set_Forall.
  - by apply processOrderResponse_returns.
  - by apply processOrderFill_returns.
Qed.

(** [calculateSessionStats] returns statistics for every session whose
    events have absent or string symbol and error fields. *)
Theorem calculateSessionStats_returns (s : StrategySession) :
  Forall (λ e, well_typed e = true) (s_events s) →
  ∃ r, calculateSessionStats s = Ok r.
Proof.
  intros Hev. unfold calculateSessionStats.
  assert (Hgen : ∀ st, orders_ok (orderMap st) →
                   ∃ st', processEvents (s_events s) st = Ok st').
  { induction Hev as [|e events He Hev IH]; intros st Hok; [by eexists|].
    destruct (processEvent_returns e st He Hok) as (st1 & Hst1 & Hok1).
    cbn [processEvents]. rewrite Hst1, bind_Ok. by apply IH. }
  destruct (Hgen (initialState s)) as [st' ->]; [by constructor|].
  by eexists.
Qed.

(** ** A worked aggregate *)

Example aggregate_two_sessions :
  (r ← calculateAggregateStats [twoFillSession; gtxRejectedSession];
   Ok (runtime r, fills_total (fills r), orders_total (orders r),
       gtxRejections (errors r), length (prices (fills r))))
  = Ok (10000%Z, 2, 1, 2, 2).
Proof. by vm_compute. Qed.

(** * More of the reducer *)

(** ** The arms *)

Lemma switch_name (sub : option string) (c : Case) (name : string) :
  case_name c = Some name →
  switch_subcategory sub = c ↔ sub = Some name.
Proof.
  intros Hc. unfold switch_subcategory.
  destruct c; simplify_eq/=; (destruct sub as [s|]; [|done]);
    repeat case_bool_decide; subst; split; intros; simplify_eq; done.
Qed.

Lemma guarded_arm (e : LogEvent) (c : Case) (name : string) :
  case_name c = Some name →
  guarded e name = bool_decide (arm_of e = Some c).
Proof.
  intros Hc. unfold guarded, arm_of.
  case_bool_decide as Hcat; cbn [andb]; [|by rewrite bool_decide_false].
  apply bool_decide_ext. rewrite <- (switch_name _ _ _ Hc). naive_solver.
Qed.

Lemma processEvent_arm (e : LogEvent) (st : State) :
  processEvent e st =
  match arm_of e with
  | None => Ok st
  | Some CASE_SPREAD_MET =>
      Ok (set_stats (set_spreadTriggers (S (spreadTriggers (stats st)))
                       (stats st)) st)
  | Some CASE_ORDER_SUBMIT => Ok (processOrderSubmit e st)
  | Some CASE_ORDER_RESPONSE => processOrderResponse e st
  | Some CASE_ORDER_FILL => processOrderFill e st
  | Some CASE_PARALLEL_ORDER | Some CASE_PAIR_LINK =>
      if truthy (field e "pair_id")
      then Ok (set_pairMap (ensurePair (field e "pair_id") (pairMap st)) st)
      else Ok st
  | Some CASE_FAST_CHASE => Ok (set_stats (processFastChaseEvent e (stats st)) st)
  | Some CASE_ORDER_STATE =>
      if msg_includes (message e) "GTX rejected"
      then Ok (set_stats (count_gtx (stats st)) st) else Ok st
  | Some CASE_ORDER_TIMEOUT =>
      Ok (set_stats (set_errors (incr_timeouts (errors (stats st)))
                       (stats st)) st)
  | Some CASE_default => Ok (set_stats (processOther e (stats st)) st)
  | Some CASE_BALANCE | Some CASE_ORDER_CANCEL => Ok st
  end.
Proof.
  unfold processEvent, arm_of. case_bool_decide; cbn [negb]; [|done].
  by destruct (switch_subcategory (subcategory e)).
Qed.

(** What an ORDER_RESPONSE does to the statistics: at most one of accepted
    and rejected goes up, GTX only with a rejection, and the latency sample
    is appended. *)
Lemma processOrderResponse_stats e st st' :
  processOrderResponse e st = Ok st' →
  ∃ a r g : bool,
    a && r = false ∧ (g = true → r = true)
    ∧ (a || r = true → truthy (field e "order_id") = true)
    ∧ pairMap st' = pairMap st
    ∧ stats st' =
      set_errors
        {| gtxRejections := Nat.b2n g + gtxRejections (errors (stats st));
           apiErrors := apiErrors (errors (stats st));
           timeouts := timeouts (errors (stats st));
           other := other (errors (stats st)) |}
        (set_orders
           {| orders_total := orders_total (orders (stats st));
              orders_accepted := Nat.b2n a + orders_accepted (orders (stats st));
              orders_rejected := Nat.b2n r + orders_rejected (orders (stats st));
              latencies :=
                latencies (orders (stats st))
                ++ (if truthy (field e "latency_ms")
                    then [field e "latency_ms"] else []) |}
           (stats st)).
Proof.
  destruct st as [[rt sp op [ot oa orj lat] f fc [g ap to oth]] om pm].
  unfold processOrderResponse. cbn [stats orders errors orderMap pairMap].
  intros H.
  destruct (truthy (field e "latency_ms")), (truthy (field e "order_id"));
    repeat case_match; simplify_eq/=;
    try (destruct (guarded_includes _ "GTX") as [[]|]; simplify_eq/=);
    repeat case_match; simplify_eq/=;
    first [ by exists false, false, false; rewrite ?app_nil_r
          | by exists true, false, false; rewrite ?app_nil_r
          | by exists false, true, true; rewrite ?app_nil_r
          | by exists false, true, false; rewrite ?app_nil_r ].
Qed.

(** ** Counting along the loop over the events *)

Lemma processEvents_app (l1 l2 : list LogEvent) (st : State) :
  processEvents (l1 ++ l2) st = processEvents l1 st ≫= processEvents l2.
Proof.
  revert st. induction l1 as [|e l1 IH]; intros st; cbn; [done|].
  destruct (processEvent e st); cbn; [apply IH | done].
Qed.

Lemma count_cons (p : LogEvent → bool) (e : LogEvent) (l : list LogEvent) :
  count p (e :: l) = Nat.b2n (p e) + count p l.
Proof.
  unfold count. rewrite filter_cons.
  destruct (p e); [by rewrite decide_True | by rewrite decide_False].
Qed.

Lemma count_app (p : LogEvent → bool) (l1 l2 : list LogEvent) :
  count p (l1 ++ l2) = count p l1 + count p l2.
Proof. unfold count. by rewrite filter_app, length_app. Qed.

Lemma processEvents_count (proj : SessionStats → nat) (ind : LogEvent → bool) :
  (∀ e st st', processEvent e st = Ok st' →
     proj (stats st') = Nat.b2n (ind e) + proj (stats st)) →
  ∀ events st st', processEvents events st = Ok st' →
    proj (stats st') = count ind events + proj (stats st).
Proof.
  intros Hstep events. induction events as [|e events IH]; intros st st' H.
  - by simplify_eq/=.
  - cbn [processEvents] in H.
    destruct (processEvent e st) as [st1|] eqn:He; [|done].
    rewrite bind_Ok in H. rewrite (IH _ _ H), (Hstep _ _ _ He), count_cons. lia.
Qed.

Lemma processEvents_samples {A} (proj : SessionStats → list A)
  (sample : LogEvent → list A) :
  (∀ e st st', processEvent e st = Ok st' →
     proj (stats st') = proj (stats st) ++ sample e) →
  ∀ events st st', processEvents events st = Ok st' →
    proj (stats st') = proj (stats st) ++ concat (map sample events).
Proof.
  intros Hstep events. induction events as [|e events IH]; intros st st' H.
  - simplify_eq/=. by rewrite app_nil_r.
  - cbn [processEvents] in H.
    destruct (processEvent e st) as [st1|] eqn:He; [|done].
    rewrite bind_Ok in H. rewrite (IH _ _ H), (Hstep _ _ _ He).
    cbn [map concat]. by rewrite (assoc_L (++)).
Qed.

Lemma calculateSessionStats_inv (s : StrategySession) (r : SessionStats) :
  calculateSessionStats s = Ok r →
  ∃ st, processEvents (s_events s) (initialState s) = Ok st
    ∧ r = set_orderPairs
            (fold_left countPair (pairMap st) (orderPairs (stats st))) (stats st).
Proof.
  unfold calculateSessionStats. intros H.
  destruct (processEvents _ _) as [st|]; [|done]. exists st. by simplify_eq/=.
Qed.

Ltac use_arm H c name :=
  rewrite processEvent_arm in H;
  try rewrite (guarded_arm _ c name eq_refl);
  destruct (arm_of _) as [[]|];
  try (repeat case_match; by simplify_eq/=).

Lemma step_spreadTriggers e st st' :
  processEvent e st = Ok st' →
  spreadTriggers (stats st')
  = Nat.b2n (guarded e "SPREAD_MET") + spreadTriggers (stats st).
Proof.
  intros H. use_arm H CASE_SPREAD_MET "SPREAD_MET".
  - simplify_eq. unfold processOrderSubmit. by case_match.
  - by apply processOrderResponse_stats in H as (a & r & g & _ & _ & _ & _ & ->).
  - by apply processOrderFill_inv in H as (b1 & b2 & _ & _ & ->).
  - simplify_eq/=. unfold processFastChaseEvent. by repeat case_match.
  - simplify_eq/=. unfold processOther. by repeat case_match.
Qed.

Lemma step_runtime e st st' :
  processEvent e st = Ok st' → runtime (stats st') = runtime (stats st).
Proof.
  intros H. use_arm H CASE_SPREAD_MET "SPREAD_MET".
  - simplify_eq. unfold processOrderSubmit. by case_match.
  - by apply processOrderResponse_stats in H as (a & r & g & _ & _ & _ & _ & ->).
  - by apply processOrderFill_inv in H as (b1 & b2 & _ & _ & ->).
  - simplify_eq/=. unfold processFastChaseEvent. by repeat case_match.
  - simplify_eq/=. unfold processOther. by repeat case_match.
Qed.

Lemma step_orders_total e st st' :
  processEvent e st = Ok st' →
  orders_total (orders (stats st'))
  = Nat.b2n (guarded e "ORDER_SUBMIT") + orders_total (orders (stats st)).
Proof.
  intros H. use_arm H CASE_ORDER_SUBMIT "ORDER_SUBMIT".
  - simplify_eq. unfold processOrderSubmit. by case_match.
  - by apply processOrderResponse_stats in H as (a & r & g & _ & _ & _ & _ & ->).
  - by apply processOrderFill_inv in H as (b1 & b2 & _ & _ & ->).
  - simplify_eq/=. unfold processFastChaseEvent. by repeat case_match.
  - simplify_eq/=. unfold processOther. by repeat case_match.
Qed.

Lemma step_latencies e st st' :
  processEvent e st = Ok st' →
  latencies (orders (stats st'))
  = latencies (orders (stats st)) ++ latency_sample e.
Proof.
  intros H. unfold latency_sample.
  use_arm H CASE_ORDER_RESPONSE "ORDER_RESPONSE"; cbn [andb];
    rewrite ?app_nil_r;
    try (repeat case_match; by simplify_eq/=).
  - simplify_eq. unfold processOrderSubmit. by case_match.
  - by apply processOrderResponse_stats in H as (a & r & g & _ & _ & _ & _ & ->).
  - by apply processOrderFill_inv in H as (b1 & b2 & _ & _ & ->).
  - simplify_eq/=. unfold processFastChaseEvent. by repeat case_match.
  - simplify_eq/=. unfold processOther. by repeat case_match.
Qed.


(** X1. The statistics of a session carry its duration as runtime, count one
    spread trigger per SPREAD_MET event and one order per ORDER_SUBMIT event
    that passes the guard, whether or not the submission has an order id. *)
Theorem plain_counters (s : StrategySession) (r : SessionStats) :
  calculateSessionStats s = Ok r →
  runtime r = s_duration s
  ∧ spreadTriggers r = count (λ e, guarded e "SPREAD_MET") (s_events s)
  ∧ orders_total (orders r) = count (λ e, guarded e "ORDER_SUBMIT") (s_events s).
Proof.
  intros (st & Hst & ->)%calculateSessionStats_inv.
  cbn [runtime spreadTriggers orders set_orderPairs]. split_and!.
  - assert (Hr : ∀ events st0 st1, processEvents events st0 = Ok st1 →
                   runtime (stats st1) = runtime (stats st0)).
    { induction events as [|e events IH]; intros st0 st1 H; [by simplify_eq/=|].
      cbn [processEvents] in H.
      destruct (processEvent e st0) as [st2|] eqn:He; [|done].
      rewrite bind_Ok in H. by rewrite (IH _ _ H), (step_runtime _ _ _ He). }
    by rewrite (Hr _ _ _ Hst).
  - rewrite (processEvents_count spreadTriggers _ step_spreadTriggers _ _ _ Hst).
    cbn. lia.
  - rewrite (processEvents_count (λ x, orders_total (orders x)) _
               step_orders_total _ _ _ Hst). cbn. lia.
Qed.


(** ** Responses, errors and fast chase, counted *)

Lemma step_response_counters e st st' :
  processEvent e st = Ok st' →
  ∃ a r g : nat,
    orders_accepted (orders (stats st')) = a + orders_accepted (orders (stats st))
    ∧ orders_rejected (orders (stats st')) = r + orders_rejected (orders (stats st))
    ∧ gtxRejections (errors (stats st')) = g + gtxRejections (errors (stats st))
    ∧ (a + r ≤ Nat.b2n (response_with_id e))%nat
    ∧ (g ≤ r + Nat.b2n (state_gtx e))%nat
    ∧ (Nat.b2n (state_gtx e) ≤ g)%nat.
Proof.
  intros H. unfold response_with_id, state_gtx.
  rewrite (guarded_arm _ CASE_ORDER_RESPONSE "ORDER_RESPONSE" eq_refl).
  rewrite (guarded_arm _ CASE_ORDER_STATE "ORDER_STATE" eq_refl).
  rewrite processEvent_arm in H.
  destruct (arm_of e) as [[]|];
    rewrite ?bool_decide_true by done; rewrite ?bool_decide_false by done;
    cbn [andb Nat.b2n];
    try (repeat case_match; simplify_eq/=; exists 0, 0, 0; by split_and!).
  - simplify_eq. unfold processOrderSubmit. exists 0, 0, 0.
    by case_match; split_and!.
  - apply processOrderResponse_stats in H
      as (a & r & g & Har & Hg & Hid & _ & ->).
    exists (Nat.b2n a), (Nat.b2n r), (Nat.b2n g). cbn. split_and!; try done;
      destruct a, r, g; simplify_eq/=; rewrite ?Hid by done; simpl; try lia;
      by specialize (Hg eq_refl).
  - apply processOrderFill_inv in H as (b1 & b2 & _ & _ & ->).
    exists 0, 0, 0. by split_and!.
  - simplify_eq/=. unfold processFastChaseEvent. exists 0, 0, 0.
    by repeat case_match; split_and!.
  - rewrite msg_includes_includes in H by done.
    destruct (includes "GTX rejected" (message e)); simplify_eq/=.
    + exists 0, 0, 1. split_and!; try done; lia.
    + exists 0, 0, 0. by split_and!.
  - simplify_eq/=. unfold processOther. exists 0, 0, 0.
    by repeat case_match; split_and!.
Qed.

Lemma processEvents_response_counters events st st' :
  processEvents events st = Ok st' →
  ∃ a r g : nat,
    orders_accepted (orders (stats st')) = a + orders_accepted (orders (stats st))
    ∧ orders_rejected (orders (stats st')) = r + orders_rejected (orders (stats st))
    ∧ gtxRejections (errors (stats st')) = g + gtxRejections (errors (stats st))
    ∧ (a + r ≤ count response_with_id events)%nat
    ∧ (g ≤ r + count state_gtx events)%nat
    ∧ (count state_gtx events ≤ g)%nat.
Proof.
  revert st. induction events as [|e events IH]; intros st H.
  - simplify_eq/=. exists 0, 0, 0. by split_and!.
  - cbn [processEvents] in H.
    destruct (processEvent e st) as [st1|] eqn:He; [|done].
    rewrite bind_Ok in H.
    apply IH in H as (a2 & r2 & g2 & -> & -> & -> & ? & ? & ?).
    apply step_response_counters in He as (a1 & r1 & g1 & -> & -> & -> & ? & ? & ?).
    exists (a2 + a1), (r2 + r1), (g2 + g1). rewrite !count_cons.
    split_and!; lia.
Qed.

(** X3. In the statistics of a session, accepted and rejected orders together
    are at most the ORDER_RESPONSE events that carry an order id, and the GTX
    rejections lie between the number of ORDER_STATE events with the
    GTX-rejection marker and that number plus the rejected orders. *)
Theorem response_counter_bounds (s : StrategySession) (r : SessionStats) :
  calculateSessionStats s = Ok r →
  (orders_accepted (orders r) + orders_rejected (orders r)
    ≤ count response_with_id (s_events s))%nat
  ∧ (count state_gtx (s_events s) ≤ gtxRejections (errors r))%nat
  ∧ (gtxRejections (errors r)
    ≤ orders_rejected (orders r) + count state_gtx (s_events s))%nat.
Proof.
  intros (st & Hst & ->)%calculateSessionStats_inv.
  apply processEvents_response_counters in Hst
    as (a & r & g & Ha & Hr & Hg & ? & ? & ?).
  cbn [orders errors set_orderPairs]. rewrite Ha, Hr, Hg. cbn. lia.
Qed.

Lemma step_errors e st st' :
  processEvent e st = Ok st' →
  timeouts (errors (stats st'))
  = Nat.b2n (guarded e "ORDER_TIMEOUT" || timeout_error e)
    + timeouts (errors (stats st))
  ∧ apiErrors (errors (stats st'))
    = Nat.b2n (api_error e) + apiErrors (errors (stats st))
  ∧ other (errors (stats st')) = Nat.b2n (other_error e) + other (errors (stats st)).
Proof.
  intros H. unfold timeout_error, api_error, other_error, stray_error.
  rewrite (guarded_arm _ CASE_ORDER_TIMEOUT "ORDER_TIMEOUT" eq_refl).
  rewrite processEvent_arm in H.
  destruct (arm_of e) as [[]|];
    rewrite ?bool_decide_true by done;
    rewrite ?(bool_decide_false (_ = Some _)) by done;
    cbn [andb orb Nat.b2n];
    try (repeat case_match; by simplify_eq/=).
  - simplify_eq. unfold processOrderSubmit. by case_match.
  - by apply processOrderResponse_stats in H as (a & r & g & _ & _ & _ & _ & ->).
  - by apply processOrderFill_inv in H as (b1 & b2 & _ & _ & ->).
  - simplify_eq/=. unfold processFastChaseEvent. by repeat case_match.
  - simplify_eq/=. unfold processOther.
    rewrite !msg_includes_includes by done.
    case_bool_decide; cbn [andb]; [|done].
    destruct (includes "timeout" (message e)); cbn; [done|].
    by destruct (includes "API" (message e)).
Qed.

(** X4. The error counters of a session are exact counts: timeouts of the
    ORDER_TIMEOUT events plus the unhandled ERROR events whose message
    contains "timeout", API errors and other errors of the remaining
    unhandled ERROR events by their message. *)
Theorem error_counters_count (s : StrategySession) (r : SessionStats) :
  calculateSessionStats s = Ok r →
  timeouts (errors r)
    = count (λ e, guarded e "ORDER_TIMEOUT" || timeout_error e) (s_events s)
  ∧ apiErrors (errors r) = count api_error (s_events s)
  ∧ other (errors r) = count other_error (s_events s).
Proof.
  intros (st & Hst & ->)%calculateSessionStats_inv.
  cbn [errors set_orderPairs]. split_and!.
  - rewrite (processEvents_count (λ x, timeouts (errors x)) _
               (λ e st st' H, proj1 (step_errors e st st' H)) _ _ _ Hst).
    cbn. lia.
  - rewrite (processEvents_count (λ x, apiErrors (errors x)) _
               (λ e st st' H, proj1 (proj2 (step_errors e st st' H))) _ _ _ Hst).
    cbn. lia.
  - rewrite (processEvents_count (λ x, other (errors x)) _
               (λ e st st' H, proj2 (proj2 (step_errors e st st' H))) _ _ _ Hst).
    cbn. lia.
Qed.






Lemma plain_counters_witness :
  ∃ r, calculateSessionStats busySession = Ok r
    ∧ runtime r = 5000%Z ∧ spreadTriggers r = 1 ∧ orders_total (orders r) = 2.
Proof.
  destruct (calculateSessionStats busySession) as [r|] eqn:H;
    [|by vm_compute in H].
  exists r. split; [done|].
  destruct (plain_counters busySession r H) as (-> & -> & ->). by vm_compute.
Defined.


Lemma response_counter_bounds_witness :
  ∃ r, calculateSessionStats busySession = Ok r
    ∧ (orders_accepted (orders r) + orders_rejected (orders r) ≤ 2)%nat
    ∧ (1 ≤ gtxRejections (errors r))%nat.
Proof.
  destruct (calculateSessionStats busySession) as [r|] eqn:H;
    [|by vm_compute in H].
  exists r. split; [done|].
  destruct (response_counter_bounds busySession r H) as (H1 & H2 & _).
  split; [exact H1 | exact H2].
Defined.

Lemma error_counters_count_witness :
  ∃ r, calculateSessionStats busySession = Ok r
    ∧ timeouts (errors r) = 1 ∧ apiErrors (errors r) = 1 ∧ other (errors r) = 0.
Proof.
  destruct (calculateSessionStats busySession) as [r|] eqn:H;
    [|by vm_compute in H].
  exists r. split; [done|].
  destruct (error_counters_count busySession r H) as (-> & -> & ->).
  by vm_compute.
Defined.


(** ** What throws, and what an exception does to the callers *)

Lemma processEvents_throw_after (l1 l2 : list LogEvent) (e : LogEvent) :
  (∀ st, processEvent e st = Throw TypeError) →
  ∀ st, processEvents (l1 ++ e :: l2) st = Throw TypeError.
Proof.
  intros He st. rewrite processEvents_app.
  destruct (processEvents l1 st) as [st1|[]]; [|reflexivity].
  rewrite bind_Ok. cbn [processEvents]. by rewrite He.
Qed.

Lemma fill_symbol_not_string (e : LogEvent) :
  includes_ok (field e "symbol") = false →
  ∀ needle, val_includes (fill_symbol e) needle = Throw TypeError.
Proof.
  unfold includes_ok, fill_symbol, or. intros H needle.
  destruct (field e "symbol") as [| |q|b|t]; cbn [truthy] in *; try done.
  - destruct (bool_decide (q = Q2Qc 0)) eqn:Hq; [done|].
    cbn. by rewrite Hq.
  - by destruct b.
Qed.

Lemma fill_throws (e : LogEvent) (st : State) :
  guarded e "ORDER_FILL" = true → includes_ok (field e "symbol") = false →
  processEvent e st = Throw TypeError.
Proof.
  intros Hg Hs. rewrite processEvent_arm.
  rewrite (guarded_arm _ CASE_ORDER_FILL "ORDER_FILL" eq_refl) in Hg.
  apply bool_decide_eq_true in Hg as ->.
  unfold processOrderFill. rewrite !(fill_symbol_not_string e Hs). reflexivity.
Qed.

Lemma rejection_throws (e : LogEvent) (st : State) :
  guarded e "ORDER_RESPONSE" = true → truthy (field e "order_id") = true →
  includes "Order accepted" (message e) = false →
  includes "Order rejected" (message e) = true →
  statusAccepted e = false →
  includes_ok (field e "error") = false →
  processEvent e st = Throw TypeError.
Proof.
  intros Hg Hid Ha Hr Hs He. rewrite processEvent_arm.
  rewrite (guarded_arm _ CASE_ORDER_RESPONSE "ORDER_RESPONSE" eq_refl) in Hg.
  apply bool_decide_eq_true in Hg as ->.
  unfold processOrderResponse. rewrite Hid.
  rewrite !msg_includes_includes by done. rewrite Ha, Hr.
  unfold statusAccepted in Hs. apply orb_false_iff in Hs as [-> ->].
  assert (guarded_includes (field e "error") "GTX" = Throw TypeError) as ->.
  { unfold guarded_includes, includes_ok in *.
    destruct (field e "error") as [| |q|b|t]; cbn [truthy] in *; try done.
    - by destruct (bool_decide (q = Q2Qc 0)).
    - by destruct b. }
  cbn. by destruct (Map_get _ _).
Qed.

(** X6. A session throws a TypeError as soon as it holds an ORDER_FILL whose
    symbol field is a number or [true], or a rejected ORDER_RESPONSE (by its
    message, not accepted by message or status field) whose error field is a
    number or [true]: such an event makes [calculateSessionStats] throw
    whatever the other events are. *)
Theorem ill_typed_payload_throws (s : StrategySession) (e : LogEvent) :
  e ∈ s_events s →
  guarded e "ORDER_FILL" = true ∧ includes_ok (field e "symbol") = false
  ∨ guarded e "ORDER_RESPONSE" = true ∧ truthy (field e "order_id") = true
    ∧ includes "Order accepted" (message e) = false
    ∧ includes "Order rejected" (message e) = true
    ∧ statusAccepted e = false
    ∧ includes_ok (field e "error") = false →
  calculateSessionStats s = Throw TypeError.
Proof.
  intros (l1 & l2 & Hl)%list_elem_of_split Hbad.
  unfold calculateSessionStats. rewrite Hl, processEvents_throw_after; [done|].
  intros st. destruct Hbad as [[? ?]|(? & ? & ? & ? & ? & ?)].
  - by apply fill_throws.
  - by apply rejection_throws.
Qed.

Lemma ill_typed_payload_throws_witness :
  calculateSessionStats
    (mkSession [buySubmit; numericSymbolFill; acceptedA1]) = Throw TypeError
  ∧ calculateSessionStats
      (mkSession [buySubmit; numericErrorRejection]) = Throw TypeError.
Proof.
  split.
  - apply (ill_typed_payload_throws _ numericSymbolFill).
    + apply list_elem_of_further, list_elem_of_here.
    + left. by split.
  - apply (ill_typed_payload_throws _ numericErrorRejection).
    + apply list_elem_of_further, list_elem_of_here.
    + right. by split_and!.
Defined.

Lemma calculateSessionStats_returns_witness :
  ∃ r, calculateSessionStats busySession = Ok r.
Proof.
  apply calculateSessionStats_returns. unfold busySession, mkSession.
  cbn [s_events]. repeat constructor.
Defined.

Lemma aggregateFrom_each (acc : SessionStats) (sessions : list StrategySession) :
  aggregateFrom acc sessions
  = eachSessionStats sessions ≫= λ rs, Ok (foldl sumStats acc rs).
Proof.
  revert acc. induction sessions as [|s sessions IH]; intros acc; cbn; [done|].
  destruct (calculateSessionStats s) as [r|]; cbn; [|done].
  rewrite IH, addSessionStats_sum.
  by destruct (eachSessionStats sessions).
Qed.

Lemma eachSessionStats_is_Ok (sessions : list StrategySession) :
  is_Ok (eachSessionStats sessions)
  = forallb (λ s, is_Ok (calculateSessionStats s)) sessions.
Proof.
  induction sessions as [|s sessions IH]; cbn; [done|].
  destruct (calculateSessionStats s); cbn; [|done].
  rewrite <- IH. by destruct (eachSessionStats sessions).
Qed.

(** X7. [calculateAggregateStats] and [extractOrdersBySession] return exactly
    when [calculateSessionStats] returns for every session: one session that
    throws makes both throw. *)
Theorem callers_return_iff_sessions_do (sessions : list StrategySession) :
  is_Ok (calculateAggregateStats sessions)
  = forallb (λ s, is_Ok (calculateSessionStats s)) sessions
  ∧ is_Ok (extractOrdersBySession sessions)
    = forallb (λ s, is_Ok (calculateSessionStats s)) sessions.
Proof.
  split.
  - unfold calculateAggregateStats. rewrite aggregateFrom_each.
    rewrite <- eachSessionStats_is_Ok. by destruct (eachSessionStats sessions).
  - induction sessions as [|s sessions IH]; cbn; [done|].
    destruct (calculateSessionStats s); cbn; [|done].
    rewrite <- IH. by destruct (extractOrdersBySession sessions).
Qed.

(** X8. When the symbol and error fields of every event are absent or
    strings, the three entry points that compute statistics return. *)
Theorem well_typed_sessions_return (sessions : list StrategySession) :
  Forall (λ e, well_typed e = true) (allEvents sessions) →
  (∀ s, s ∈ sessions → ∃ r, calculateSessionStats s = Ok r)
  ∧ (∃ r, calculateAggregateStats sessions = Ok r)
  ∧ (∃ rows, extractOrdersBySession sessions = Ok rows).
Proof.
  intros Hall.
  assert (Heach : ∀ s, s ∈ sessions → ∃ r, calculateSessionStats s = Ok r).
  { intros s Hs. apply calculateSessionStats_returns.
    unfold allEvents in Hall. rewrite Forall_concat, Forall_fmap in Hall.
    rewrite Forall_forall in Hall. by apply Hall. }
  assert (Hall_ok : forallb (λ s, is_Ok (calculateSessionStats s)) sessions = true).
  { apply forallb_forall. intros s Hs%list_elem_of_In.
    by destruct (Heach s Hs) as [r ->]. }
  split; [done|]. split.
  - destruct (calculateAggregateStats sessions) as [r|] eqn:H; [by eexists|].
    unfold calculateAggregateStats in H. rewrite aggregateFrom_each in H.
    pose proof (eachSessionStats_is_Ok sessions) as Hok. rewrite Hall_ok in Hok.
    by destruct (eachSessionStats sessions).
  - destruct (extractOrdersBySession sessions) as [rows|] eqn:H; [by eexists|].
    exfalso. clear Hall Heach. induction sessions as [|s sessions IH]; [done|].
    cbn in H, Hall_ok. apply andb_true_iff in Hall_ok as [Hs Hrest].
    destruct (calculateSessionStats s); [|done]. cbn in H.
    destruct (extractOrdersBySession sessions); [done|]. by apply IH.
Qed.

Lemma well_typed_sessions_return_witness :
  ∃ r, calculateAggregateStats [busySession; twoFillSession] = Ok r.
Proof.
  apply (well_typed_sessions_return [busySession; twoFillSession]).
  unfold allEvents, busySession, twoFillSession, mkSession.
  cbn [map concat s_events app]. repeat constructor.
Defined.

(** ** The aggregate, counter by counter *)

Lemma eachSessionStats_Forall2 (sessions : list StrategySession)
  (rs : list SessionStats) :
  eachSessionStats sessions = Ok rs →
  Forall2 (λ s r, calculateSessionStats s = Ok r) sessions rs.
Proof.
  revert rs. induction sessions as [|s sessions IH]; intros rs H; cbn in H.
  - simplify_eq. constructor.
  - destruct (calculateSessionStats s) as [r|] eqn:Hs; [|done]. cbn in H.
    destruct (eachSessionStats sessions) as [rs'|]; [|done]. simplify_eq/=.
    constructor; [done | by apply IH].
Qed.

Lemma session_census (s : StrategySession) (r : SessionStats) :
  calculateSessionStats s = Ok r →
  runtime r = s_duration s
  ∧ spreadTriggers r = count (λ e, guarded e "SPREAD_MET") (s_events s)
  ∧ orders_total (orders r) = count (λ e, guarded e "ORDER_SUBMIT") (s_events s)
  ∧ fills_total (fills r) = count counted_fill (s_events s)
  ∧ latencies (orders r) = concat (map latency_sample (s_events s)).
Proof.
  intros (st & Hst & ->)%calculateSessionStats_inv.
  cbn [runtime spreadTriggers orders fills set_orderPairs]. split_and!.
  - assert (Hr : ∀ events st0 st1, processEvents events st0 = Ok st1 →
                   runtime (stats st1) = runtime (stats st0)).
    { induction events as [|e events IH]; intros st0 st1 H; [by simplify_eq/=|].
      cbn [processEvents] in H.
      destruct (processEvent e st0) as [st2|] eqn:He; [|done].
      rewrite bind_Ok in H. by rewrite (IH _ _ H), (step_runtime _ _ _ He). }
    by rewrite (Hr _ _ _ Hst).
  - rewrite (processEvents_count spreadTriggers _ step_spreadTriggers _ _ _ Hst).
    cbn. lia.
  - rewrite (processEvents_count (λ x, orders_total (orders x)) _
               step_orders_total _ _ _ Hst). cbn. lia.
  - by destruct (processEvents_fills _ _ _ Hst) as [-> _].
  - by rewrite (processEvents_samples (λ x, latencies (orders x)) _
                  step_latencies _ _ _ Hst).
Qed.

Lemma foldl_sumStats_census (sessions : list StrategySession)
  (rs : list SessionStats) (acc : SessionStats) :
  Forall2 (λ s r, calculateSessionStats s = Ok r) sessions rs →
  let r := foldl sumStats acc rs in
  runtime r = (runtime acc + totalDuration sessions)%Z
  ∧ spreadTriggers r
    = spreadTriggers acc + count (λ e, guarded e "SPREAD_MET") (allEvents sessions)
  ∧ orders_total (orders r)
    = orders_total (orders acc)
      + count (λ e, guarded e "ORDER_SUBMIT") (allEvents sessions)
  ∧ fills_total (fills r)
    = fills_total (fills acc) + count counted_fill (allEvents sessions)
  ∧ latencies (orders r)
    = latencies (orders acc) ++ concat (map latency_sample (allEvents sessions)).
Proof.
  intros H. revert acc. induction H as [|s r0 sessions rs Hs H IH]; intros acc.
  - cbn. rewrite app_nil_r. split_and!; lia || done.
  - cbn [foldl]. destruct (IH (sumStats acc r0)) as (-> & -> & -> & -> & ->).
    destruct (session_census s r0 Hs) as (Hr & Hsp & Hto & Hfi & Hla).
    unfold allEvents, totalDuration. cbn [map concat foldr].
    rewrite !count_app, map_app, concat_app.
    cbn [sumStats runtime spreadTriggers orders fills orders_total fills_total
         latencies].
    rewrite Hr, Hsp, Hto, Hfi, Hla, <- (assoc_L (++)).
    split_and!; lia || done.
Qed.

(** X9. The aggregate over a list of sessions has the sum of their durations
    as runtime and counts the SPREAD_MET, ORDER_SUBMIT and ORDER_FILL events
    of all sessions together; its latency samples are those of all events in
    order.  For a single session it is that session's statistics. *)
Theorem aggregate_counts_all_events (sessions : list StrategySession) :
  (∀ r, calculateAggregateStats sessions = Ok r →
     runtime r = totalDuration sessions
     ∧ spreadTriggers r
       = count (λ e, guarded e "SPREAD_MET") (allEvents sessions)
     ∧ orders_total (orders r)
       = count (λ e, guarded e "ORDER_SUBMIT") (allEvents sessions)
     ∧ fills_total (fills r) = count counted_fill (allEvents sessions)
     ∧ latencies (orders r) = concat (map latency_sample (allEvents sessions)))
  ∧ ∀ s, calculateAggregateStats [s] = calculateSessionStats s.
Proof.
  split.
  - intros r H. unfold calculateAggregateStats in H.
    rewrite aggregateFrom_each in H.
    destruct (eachSessionStats sessions) as [rs|] eqn:Hrs; [|done].
    simplify_eq/=. apply eachSessionStats_Forall2 in Hrs.
    destruct (foldl_sumStats_census sessions rs new_SessionStats Hrs)
      as (-> & -> & -> & -> & ->).
    cbn. split_and!; lia || done.
  - intros s. unfold calculateAggregateStats. cbn.
    destruct (calculateSessionStats s) as [r|]; cbn; [|done].
    by rewrite addSessionStats_sum, sumStats_new_l.
Qed.

Lemma aggregate_counts_all_events_witness :
  ∃ r, calculateAggregateStats [busySession; twoFillSession] = Ok r
    ∧ runtime r = 10000%Z ∧ fills_total (fills r) = 3.
Proof.
  destruct (calculateAggregateStats [busySession; twoFillSession])
    as [r|] eqn:H; [|by vm_compute in H].
  exists r. split; [done|].
  destruct (proj1 (aggregate_counts_all_events _) r H) as (-> & _ & _ & -> & _).
  by vm_compute.
Defined.

(** ** Events without effect *)






(** ** The pair table only grows *)

Lemma leg_le_refl (a : value * PairInfo) : leg_le a a.
Proof. by unfold leg_le. Qed.

Lemma leg_le_trans (a b c : value * PairInfo) :
  leg_le a b → leg_le b c → leg_le a c.
Proof. unfold leg_le. intros (-> & ? & ?) (-> & ? & ?). auto. Qed.

Lemma Forall2_leg_le_refl (pm : JSMap PairInfo) : Forall2 leg_le pm pm.
Proof. induction pm; constructor; [apply leg_le_refl | done]. Qed.

Lemma pairs_grow_refl (pm : JSMap PairInfo) : pairs_grow pm pm.
Proof.
  exists pm, []. split; [by rewrite app_nil_r | apply Forall2_leg_le_refl].
Qed.

Lemma pairs_grow_trans (a b c : JSMap PairInfo) :
  pairs_grow a b → pairs_grow b c → pairs_grow a c.
Proof.
  intros (u1 & e1 & -> & H1) (u2 & e2 & -> & H2).
  apply Forall2_app_inv_l in H2 as (u & v & Hu & Hv & ->).
  exists u, (v ++ e2). split; [by rewrite app_assoc|].
  clear Hv. revert u Hu. induction H1; intros u Hu.
  - by inversion Hu.
  - inversion Hu; subst. constructor; [by eapply leg_le_trans | auto].
Qed.

Lemma Map_set_new {V} (k : value) (v : V) (m : JSMap V) :
  Map_get k m = None → Map_set k v m = m ++ [(k, v)].
Proof.
  induction m as [|[k' v'] m IH]; [done|]. cbn.
  destruct (decide (k' = k)); [done|]. intros H. by rewrite IH.
Qed.

Lemma Map_set_grows (k : value) (p v : PairInfo) (pm : JSMap PairInfo) :
  Map_get k pm = Some p → leg_le (k, p) (k, v) →
  Forall2 leg_le pm (Map_set k v pm).
Proof.
  induction pm as [|[k' v'] pm IH]; [done|]. cbn.
  destruct (decide (k' = k)) as [->|].
  - intros [= ->] H. constructor; [done | apply Forall2_leg_le_refl].
  - intros H1 H2. constructor; [apply leg_le_refl | auto].
Qed.

Lemma ensurePair_grows (id : value) (pm : JSMap PairInfo) :
  pairs_grow pm (ensurePair id pm).
Proof.
  unfold ensurePair, Map_has. destruct (Map_get id pm) eqn:H.
  - apply pairs_grow_refl.
  - rewrite Map_set_new by done. eexists pm, _.
    split; [done | apply Forall2_leg_le_refl].
Qed.

Lemma correlateFill_grows e st st' :
  correlateFill e st = Ok st' → pairs_grow (pairMap st) (pairMap st').
Proof.
  unfold correlateFill. intros H.
  destruct (truthy (field e "order_id")); [|simplify_eq; apply pairs_grow_refl].
  destruct (Map_get _ (orderMap st)) as [o|];
    [|simplify_eq; apply pairs_grow_refl].
  destruct (truthy (oi_pairId o)); [|simplify_eq; apply pairs_grow_refl].
  destruct (Map_get (oi_pairId o) (ensurePair _ _)) as [pr|] eqn:Hpr; [|done].
  destruct (guarded_includes _ "USDT") as [b1|]; simpl in H; [|done].
  destruct (if b1 then Ok false else _) as [b2|]; simpl in H; [|done].
  simplify_eq/=.
  eapply pairs_grow_trans; [apply ensurePair_grows|].
  eexists _, []. rewrite app_nil_r. split; [done|].
  apply (Map_set_grows _ pr); [done|].
  unfold leg_le. destruct b1, b2; cbn; auto.
Qed.

Lemma processEvent_grows e st st' :
  processEvent e st = Ok st' → pairs_grow (pairMap st) (pairMap st').
Proof.
  unfold processEvent. intros H.
  case_bool_decide as Hc; simpl in *;
    [|simplify_eq; apply pairs_grow_refl].
  destruct (switch_subcategory (subcategory e)) eqn:Hsw;
    try (repeat case_match; simplify_eq/=; by apply pairs_grow_refl).
  - simplify_eq. unfold processOrderSubmit. case_match; apply pairs_grow_refl.
  - rewrite (processOrderResponse_pairMap _ _ _ H). apply pairs_grow_refl.
  - unfold processOrderFill in H.
    destruct (val_includes (fill_symbol e) "USDT") as [b1|]; simpl in H;
      [|done].
    destruct (if b1 then Ok false else _) as [b2|]; simpl in H; [|done].
    by apply correlateFill_grows in H.
  - case_match; simplify_eq; [apply ensurePair_grows | apply pairs_grow_refl].
  - case_match; simplify_eq; [apply ensurePair_grows | apply pairs_grow_refl].
Qed.

Lemma processEvents_grows events st st' :
  processEvents events st = Ok st' → pairs_grow (pairMap st) (pairMap st').
Proof.
  revert st. induction events as [|e events IH]; intros st H; simpl in H.
  - simplify_eq. apply pairs_grow_refl.
  - destruct (processEvent e st) as [st1|] eqn:He; simpl in H; [|done].
    eapply pairs_grow_trans; [by eapply processEvent_grows | by apply IH].
Qed.

Lemma pairs_grow_counts (pm pm' : JSMap PairInfo) :
  pairs_grow pm pm' →
  (length pm ≤ length pm')%nat
  ∧ (length (filter bothFilled pm) ≤ length (filter bothFilled pm'))%nat.
Proof.
  intros (u & x & -> & H). rewrite filter_app, !length_app.
  assert ((length pm = length u)%nat
          ∧ (length (filter bothFilled pm) ≤ length (filter bothFilled u))%nat)
    as [-> ?]; [|lia].
  induction H as [|a b pm u Hab H [IH1 IH2]]; [done|].
  split; [cbn; by rewrite IH1|].
  rewrite !filter_cons. destruct Hab as (_ & Ht & Hc).
  destruct (decide (bothFilled a)) as [[]|];
    destruct (decide (bothFilled b)) as [|Hb]; cbn; try lia.
  exfalso. apply Hb. split; auto.
Qed.

(** X11. Pairs are never taken back: when more events are appended to a
    session, [orderPairs.attempted] and [orderPairs.succeeded] do not
    decrease, and succeeded never exceeds attempted. *)
Theorem pairs_never_taken_back (s : StrategySession) (more : list LogEvent)
    (r r' : SessionStats) :
  calculateSessionStats s = Ok r →
  calculateSessionStats (with_events s (s_events s ++ more)) = Ok r' →
  (attempted (orderPairs r) ≤ attempted (orderPairs r'))%nat
  ∧ (succeeded (orderPairs r) ≤ succeeded (orderPairs r'))%nat
  ∧ (succeeded (orderPairs r') ≤ attempted (orderPairs r'))%nat.
Proof.
  intros Hr Hr'.
  destruct (processEvents (s_events s) (initialState s)) as [st|] eqn:Hst;
    [|by unfold calculateSessionStats in Hr; rewrite Hst in Hr].
  destruct (processEvents (s_events s ++ more) (initialState s))
    as [st'|] eqn:Hst';
    [|by unfold calculateSessionStats in Hr'; cbn [s_events with_events] in Hr';
      change (initialState (with_events s _)) with (initialState s) in Hr';
      rewrite Hst' in Hr'].
  pose proof Hst' as Hmore. rewrite processEvents_app, Hst, bind_Ok in Hmore.
  apply processEvents_grows, pairs_grow_counts in Hmore as [Ha Hs].
  apply calculateSessionStats_pairs in Hst as (_ & x & Hx & Hxa & Hxs).
  assert (processEvents (s_events (with_events s (s_events s ++ more)))
            (initialState (with_events s (s_events s ++ more))) = Ok st')
    as Hst'' by exact Hst'.
  apply calculateSessionStats_pairs in Hst'' as (_ & y & Hy & Hya & Hys).
  rewrite Hr in Hx. rewrite Hr' in Hy. simplify_eq.
  rewrite Hxa, Hxs, Hya, Hys. split_and!; [done | done |].
  apply length_filter.
Qed.

Lemma pairs_never_taken_back_witness :
  ∃ r r',
    calculateSessionStats (oneLegSession (VStr "A1") (VStr "A2") (VStr "P1"))
    = Ok r
    ∧ calculateSessionStats
        (pairedSession (VStr "A1") (VStr "A2") (VStr "P1")) = Ok r'
    ∧ (succeeded (orderPairs r) ≤ succeeded (orderPairs r'))%nat
    ∧ succeeded (orderPairs r) = 0 ∧ succeeded (orderPairs r') = 1.
Proof.
  set (s := oneLegSession (VStr "A1") (VStr "A2") (VStr "P1")).
  set (more := [fillEvent (VStr "A2") (VStr "ETHUSDC")]).
  destruct (calculateSessionStats s) as [r|] eqn:H; [|by vm_compute in H].
  change (pairedSession (VStr "A1") (VStr "A2") (VStr "P1"))
    with (with_events s (s_events s ++ more)).
  destruct (calculateSessionStats (with_events s (s_events s ++ more)))
    as [r'|] eqn:H'; [|by vm_compute in H'].
  exists r, r'. split_and!; [done | done | | |].
  - by destruct (pairs_never_taken_back s more r r' H H') as (_ & ? & _).
  - vm_compute in H. by injection H as <-.
  - vm_compute in H'. by injection H' as <-.
Defined.

(** * The order-detail extractions *)

(** ** The final sort *)

Lemma insert_by_Permutation {A} (key : A → Z) (x : A) (l : list A) :
  insert_by key x l ≡ₚ x :: l.
Proof.
  induction l as [|y l IH]; cbn; [done|].
  destruct (key x <=? key y)%Z; [done|]. rewrite IH. apply Permutation_swap.
Qed.

Lemma sort_by_Permutation {A} (key : A → Z) (l : list A) : sort_by key l ≡ₚ l.
Proof.
  induction l as [|x l IH]; cbn; [done|].
  by rewrite insert_by_Permutation, IH.
Qed.

Lemma insert_by_sorted {A} (key : A → Z) (x : A) (l : list A) :
  StronglySorted (λ a b, (key a ≤ key b)%Z) l →
  StronglySorted (λ a b, (key a ≤ key b)%Z) (insert_by key x l).
Proof.
  induction 1 as [|y l Hs IH Hy]; cbn; [repeat constructor|].
  destruct (Z.leb_spec (key x) (key y)).
  - constructor; [by constructor|].
    constructor; [done|]. eapply Forall_impl; [exact Hy|]. cbn. lia.
  - constructor; [done|].
    rewrite insert_by_Permutation. constructor; [lia | done].
Qed.

Lemma sort_by_sorted {A} (key : A → Z) (l : list A) :
  StronglySorted (λ a b, (key a ≤ key b)%Z) (sort_by key l).
Proof.
  induction l as [|x l IH]; cbn; [constructor | by apply insert_by_sorted].
Qed.

Lemma insert_by_stable {A} (key : A → Z) (t : Z) (x : A) (l : list A) :
  filter (λ y, key y = t) (insert_by key x l) = filter (λ y, key y = t) (x :: l).
Proof.
  induction l as [|y l IH]; cbn; [done|].
  destruct (Z.leb_spec (key x) (key y)); [done|].
  rewrite (filter_cons _ y), IH, !filter_cons.
  destruct (decide (key y = t)), (decide (key x = t)); try done. lia.
Qed.

Lemma sort_by_stable {A} (key : A → Z) (t : Z) (l : list A) :
  filter (λ y, key y = t) (sort_by key l) = filter (λ y, key y = t) l.
Proof.
  induction l as [|x l IH]; cbn; [done|].
  by rewrite insert_by_stable, !filter_cons, IH.
Qed.

(** X12. The rows [extractOrderDetails] returns are the rows of the pass in
    ascending submit time, and rows with the same submit time keep the order
    in which their responses arrived. *)
Theorem details_sorted_by_submit_time (sessions : list StrategySession) :
  StronglySorted by_submit_time (extractOrderDetails sessions)
  ∧ extractOrderDetails sessions ≡ₚ ds_orders (detailPass sessions)
  ∧ ∀ t, filter (λ r, submitTime r = t) (extractOrderDetails sessions)
         = filter (λ r, submitTime r = t) (ds_orders (detailPass sessions)).
Proof.
  unfold extractOrderDetails. split_and!.
  - apply sort_by_sorted.
  - apply sort_by_Permutation.
  - intros t. apply sort_by_stable.
Qed.

(** X13. [extractOrderDetails] keeps its queue of pending submissions and its
    order table across sessions: the rows depend on the events in their
    order only, not on where one session ends and the next begins. *)
Theorem details_ignore_session_boundaries (A B : list StrategySession) :
  allEvents A = allEvents B → extractOrderDetails A = extractOrderDetails B.
Proof.
  unfold extractOrderDetails, allEvents. intros H.
  by rewrite !detailPass_concat, H.
Qed.

Lemma details_ignore_session_boundaries_witness :
  extractOrderDetails (splitSessions [buySubmit] [acceptedA1; fillA1])
  = extractOrderDetails [mkSession [buySubmit; acceptedA1; fillA1]].
Proof. by apply details_ignore_session_boundaries. Defined.

(** ** The shape of the rows *)

Lemma number_or_zero_not_NaN (a : number) : number_or a zero ≠ NaN.
Proof. unfold number_or. destruct a; cbn; try case_match; done. Qed.

Lemma response_status_cases (e : LogEvent) :
  response_status e ∈ ["accepted"; "rejected"; "unknown"].
Proof. unfold response_status. repeat case_match; repeat constructor. Qed.

Lemma response_row_ok (e : LogEvent) (si : option SubmitInfo) :
  truthy (field e "order_id") = true → detail_row_ok (response_row e si).
Proof.
  intros H. unfold detail_row_ok. cbn. split_and!; try done.
  apply response_status_cases.
Qed.

Lemma fill_detail_ok (e : LogEvent) (r : OrderDetail) :
  detail_row_ok r → detail_row_ok (fill_detail e r).
Proof.
  unfold detail_row_ok. intros (H1 & H2 & H3 & H4 & H5 & H6).
  cbn. split_and!; try done.
  - case_bool_decide; [done|]. intros [= Hn]. by apply number_or_zero_not_NaN in Hn.
  - case_bool_decide; [done|]. intros [= Hn]. by apply number_or_zero_not_NaN in Hn.
  - destruct (msg_includes _ _); repeat constructor.
Qed.

Lemma detailStep_ok (st : DetailState) (e : LogEvent) :
  Forall detail_row_ok (ds_orders st) →
  Forall detail_row_ok (ds_orders (detailStep st e)).
Proof.
  intros H. unfold detailStep.
  destruct (is_sub e "ORDER_SUBMIT"); [done|].
  destruct (is_sub e "ORDER_RESPONSE").
  { destruct (truthy (field e "order_id")) eqn:Hid; [|done]. cbn [negb].
    destruct (takePending _ _) as [si p]. cbn [ds_orders].
    apply Forall_app. split; [done|]. constructor; [|done].
    by apply response_row_ok. }
  destruct (is_sub e "ORDER_FILL"); [|done].
  destruct (truthy (field e "order_id")); [|done].
  destruct (Map_get _ _); [|done]. cbn [ds_orders].
  apply Forall_alter; [done|]. intros x _. apply fill_detail_ok.
Qed.

(** X14. Every row [extractOrderDetails] returns has a truthy order id, no
    pair id and no cumulative quantity (the cross-session extraction never
    assigns them), and no NaN quantity; a row without fill time has a
    response status and no quantities, a row with a fill time has status
    "partial" or "filled". *)
Theorem detail_rows_shape (sessions : list StrategySession) :
  Forall detail_row_ok (extractOrderDetails sessions).
Proof.
  unfold extractOrderDetails. rewrite sort_by_Permutation, detailPass_concat.
  generalize (concat (map s_events sessions)). intros events.
  assert (Forall detail_row_ok
            (ds_orders {| ds_orders := []; ds_orderMap := []; ds_pending := [] |}))
    as H0 by constructor.
  revert H0. generalize {| ds_orders := []; ds_orderMap := []; ds_pending := [] |}.
  induction events as [|e events IH]; intros st H0; cbn [fold_left]; [done|].
  by apply IH, detailStep_ok.
Qed.

(** ** [extractOrdersBySession], session by session *)

Lemma extractOrdersBySession_inv (sessions : list StrategySession)
    (res : list SessionOrders) :
  extractOrdersBySession sessions = Ok res →
  Forall2 (λ s o, so_session o = s
                  ∧ calculateSessionStats s = Ok (so_stats o)
                  ∧ so_orders o
                    = sort_by row_time (rs_rows (rowPass (s_events s))))
    sessions res.
Proof.
  revert res. induction sessions as [|s sessions IH]; intros res H.
  - cbn in H. simplify_eq. constructor.
  - cbn [extractOrdersBySession] in H.
    destruct (calculateSessionStats s) as [r|] eqn:Hr; [|done].
    rewrite bind_Ok in H.
    destruct (extractOrdersBySession sessions) as [more|]; [|done].
    rewrite bind_Ok in H. simplify_eq. constructor; [done | by apply IH].
Qed.

Lemma extractOrdersBySession_app (A B : list StrategySession) :
  extractOrdersBySession (A ++ B)
  = a ← extractOrdersBySession A; b ← extractOrdersBySession B; Ok (a ++ b).
Proof.
  induction A as [|s A IH]; cbn [app extractOrdersBySession].
  - rewrite bind_Ok. by destruct (extractOrdersBySession B).
  - destruct (calculateSessionStats s) as [r|]; [|done]. rewrite !bind_Ok.
    rewrite IH. destruct (extractOrdersBySession A) as [a|]; [|done].
    rewrite !bind_Ok.
    destruct (extractOrdersBySession B) as [b|]; [|done]. by rewrite !bind_Ok.
Qed.

(** X15. [extractOrdersBySession] starts every session afresh: the result of
    a list of sessions is the result of its first part followed by that of
    the rest, with one entry per session in the order of the sessions; an
    entry carries the statistics [calculateSessionStats] gives for its
    session, and its rows are in ascending row time (fill time, else submit
    time), rows with the same time in the order the pass left them. *)
Theorem by_session_entries (A B : list StrategySession) :
  extractOrdersBySession (A ++ B)
  = (a ← extractOrdersBySession A; b ← extractOrdersBySession B; Ok (a ++ b))
  ∧ ∀ res, extractOrdersBySession A = Ok res →
      map so_session res = A
      ∧ Forall (λ o,
          calculateSessionStats (so_session o) = Ok (so_stats o)
          ∧ StronglySorted by_row_time (so_orders o)
          ∧ so_orders o ≡ₚ rs_rows (rowPass (s_events (so_session o)))
          ∧ ∀ t, filter (λ r, row_time r = t) (so_orders o)
                 = filter (λ r, row_time r = t)
                     (rs_rows (rowPass (s_events (so_session o))))) res.
Proof.
  split; [apply extractOrdersBySession_app|].
  intros res H%extractOrdersBySession_inv.
  induction H as [|s o A' res' (Hs & Hr & Ho) H [IH1 IH2]]; [done|].
  split; [cbn; by rewrite Hs, IH1|].
  constructor; [|done]. rewrite Hs, Ho. split_and!.
  - done.
  - apply sort_by_sorted.
  - apply sort_by_Permutation.
  - intros t. apply sort_by_stable.
Qed.

Lemma by_session_entries_witness :
  ∃ res, extractOrdersBySession [acceptedThenFilledSession; fillFirstSession]
         = Ok res
    ∧ map so_session res = [acceptedThenFilledSession; fillFirstSession].
Proof.
  destruct (extractOrdersBySession [acceptedThenFilledSession; fillFirstSession])
    as [res|] eqn:H; [|by vm_compute in H].
  exists res. split; [done|].
  by destruct (by_session_entries
                 [acceptedThenFilledSession; fillFirstSession] [])
    as [_ [? _]%(λ f, f res H)].
Defined.

(** ** The rows of a session *)

Lemma removeAccepted_inv (oid : value) (rows : list OrderDetail) :
  removeAccepted oid rows = rows
  ∨ ∃ before r after, rows = before ++ r :: after ∧ is_accepted_row oid r
      ∧ removeAccepted oid rows = before ++ after.
Proof.
  induction rows as [|x rows IH]; [by left|].
  rewrite removeAccepted_cons. case_decide as Hx.
  - right. by exists [], x, rows.
  - destruct IH as [->|(b & r & a & -> & Hr & ->)]; [by left|].
    right. by exists (x :: b), r, a.
Qed.

Lemma restatusAccepted_inv (oid : value) (st : string)
    (rows : list OrderDetail) :
  restatusAccepted oid st rows = rows
  ∨ ∃ before r after, rows = before ++ r :: after ∧ is_accepted_row oid r
      ∧ restatusAccepted oid st rows = before ++ set_status st r :: after.
Proof.
  unfold restatusAccepted.
  destruct (list_find _ rows) as [[i r]|] eqn:H; [|by left].
  apply list_find_Some in H as (Hi & Hr & _). right.
  apply list_elem_of_split_length in Hi as (b & a & -> & ->).
  exists b, r, a. split_and!; [done | done |].
  by rewrite alter_app_r_alt, Nat.sub_diag by lia.
Qed.

Lemma accepted_row_no_fill (oid : value) (r : OrderDetail) :
  session_row_ok r → is_accepted_row oid r → has_fill r = false.
Proof.
  unfold session_row_ok. intros H [_ Hs]. destruct (has_fill r); [|done].
  destruct H as [H _]. rewrite Hs in H.
  apply elem_of_cons in H as [|H]; [done|].
  apply elem_of_cons in H as [|H]; [done|]. by apply elem_of_nil in H.
Qed.

Lemma set_status_ok (oid : value) (st : string) (r : OrderDetail) :
  st ∈ ["rejected"; "canceled"] →
  session_row_ok r → is_accepted_row oid r → session_row_ok (set_status st r).
Proof.
  intros Hst Hok Hr. pose proof (accepted_row_no_fill _ _ Hok Hr) as Hf.
  unfold session_row_ok in *.
  change (has_fill (set_status st r)) with (has_fill r). rewrite Hf in *.
  destruct Hok as (? & ? & ? & ? & ?). cbn. split_and!; try done.
  apply elem_of_cons in Hst as [->|Hst]; [repeat constructor|].
  apply elem_of_cons in Hst as [->|Hst]; [repeat constructor|].
  by apply elem_of_nil in Hst.
Qed.

Lemma fill_row_ok (e : LogEvent) (base : option BaseOrder) :
  session_row_ok (fill_row e base) ∧ has_fill (fill_row e base) = true.
Proof.
  unfold session_row_ok. cbn. split_and!; try done.
  - destruct (msg_includes _ _); repeat constructor.
  - eexists. split; [done | apply number_or_zero_not_NaN].
  - eexists. split; [done | apply number_or_zero_not_NaN].
  - eexists. split; [done | apply number_or_zero_not_NaN].
Qed.

Lemma response_row_session_ok (e : LogEvent) (si : option SubmitInfo) :
  truthy (field e "order_id") = true →
  session_row_ok (response_row e si) ∧ has_fill (response_row e si) = false.
Proof.
  intros H. unfold session_row_ok. cbn. split_and!; try done.
  pose proof (response_status_cases e) as Hs.
  apply elem_of_cons in Hs as [->|Hs]; [repeat constructor|].
  apply elem_of_cons in Hs as [->|Hs]; [repeat constructor|].
  apply elem_of_cons in Hs as [->|Hs]; [repeat constructor|].
  by apply elem_of_nil in Hs.
Qed.

Lemma rowStep_census (st : RowState) (e : LogEvent) (fills responses : nat) :
  rows_census (rs_rows st) fills responses →
  rows_census (rs_rows (rowStep st e))
    (fills + if is_sub e "ORDER_FILL" then 1 else 0)
    (responses + if response_row_event e then 1 else 0).
Proof.
  intros (Hok & Hf & Hl). unfold rowStep, response_row_event.
  destruct (is_sub e "ORDER_SUBMIT") eqn:H1.
  { assert (is_sub e "ORDER_FILL" = false) as ->.
    { unfold is_sub in *. apply bool_decide_eq_true in H1.
      rewrite H1. by apply bool_decide_eq_false. }
    assert (is_sub e "ORDER_RESPONSE" = false) as ->.
    { unfold is_sub in *. apply bool_decide_eq_true in H1.
      rewrite H1. by apply bool_decide_eq_false. }
    cbn. rewrite !Nat.add_0_r. done. }
  destruct (is_sub e "ORDER_RESPONSE") eqn:H2.
  { assert (is_sub e "ORDER_FILL" = false) as ->.
    { unfold is_sub in *. apply bool_decide_eq_true in H2.
      rewrite H2. by apply bool_decide_eq_false. }
    destruct (truthy (field e "order_id")) eqn:Hid; cbn;
      [|rewrite !Nat.add_0_r; done].
    destruct (takePending _ _) as [si p]. cbn [rs_rows].
    destruct (response_row_session_ok e si Hid) as [Hr Hn].
    split_and!.
    - apply Forall_app. split; [done | by constructor].
    - rewrite filter_app, filter_cons, decide_False by by rewrite Hn.
      rewrite filter_nil, app_nil_r. lia.
    - rewrite length_app. cbn. lia. }
  cbn [andb]. rewrite Nat.add_0_r.
  destruct (is_sub e "ORDER_FILL") eqn:H3.
  { cbn [rs_rows].
    rewrite removeAccepted_app_other by apply fill_row_not_accepted.
    destruct (fill_row_ok e (Map_get (field e "order_id") (rs_orderMap st)))
      as [Hr Hy].
    assert (rows_census (removeAccepted (field e "order_id") (rs_rows st))
              fills responses) as (Hok' & Hf' & Hl').
    { destruct (removeAccepted_inv (field e "order_id") (rs_rows st))
        as [->|(b & r & a & Hrows & Hacc & ->)]; [done|].
      rewrite Hrows in Hok, Hf, Hl.
      apply Forall_app in Hok as [Hb Ha]. apply Forall_cons in Ha as [Hx Ha'].
      pose proof (accepted_row_no_fill _ _ Hx Hacc) as Hnf.
      rewrite filter_app, filter_cons, decide_False in Hf by by rewrite Hnf.
      rewrite length_app in Hl. cbn in Hl. split_and!.
      - apply Forall_app. by split.
      - by rewrite filter_app.
      - rewrite length_app. lia. }
    split_and!.
    - apply Forall_app. split; [done | by constructor].
    - rewrite filter_app, filter_cons, decide_True by done.
      rewrite length_app. cbn. lia.
    - rewrite length_app. cbn. lia. }
  rewrite Nat.add_0_r.
  assert (∀ status, status ∈ ["rejected"; "canceled"] →
            rows_census
              (restatusAccepted (field e "order_id") status (rs_rows st))
              fills responses) as Hre.
  { intros status Hst.
    destruct (restatusAccepted_inv (field e "order_id") status (rs_rows st))
      as [->|(b & r & a & Hrows & Hacc & ->)]; [done|].
    rewrite Hrows in Hok, Hf, Hl.
    apply Forall_app in Hok as [Hb Ha]. apply Forall_cons in Ha as [Hx Ha'].
    pose proof (accepted_row_no_fill _ _ Hx Hacc) as Hnf.
    rewrite filter_app, filter_cons, decide_False in Hf by by rewrite Hnf.
    rewrite length_app in Hl. cbn in Hl. split_and!.
    - apply Forall_app. split; [done|].
      constructor; [by eapply set_status_ok | done].
    - rewrite filter_app, filter_cons, decide_False; [done|].
      change (has_fill (set_status status r)) with (has_fill r).
      by rewrite Hnf.
    - rewrite length_app. cbn. lia. }
  destruct (is_sub e "ORDER_STATE").
  { destruct (truthy (field e "order_id")); [|done].
    destruct (Map_get _ _); [|done].
    destruct (msg_includes (message e) "GTX rejected");
      [apply Hre; repeat constructor|].
    destruct (msg_includes (message e) "canceled");
      [apply Hre; repeat constructor | done]. }
  destruct (is_sub e "PAIR_LINK"); [|done]. cbn [rs_rows].
  set (f := λ r : OrderDetail, _).
  assert (∀ r, has_fill (f r) = has_fill r) as Hhf.
  { intros r. unfold f. by destruct (_ || _). }
  assert (∀ r, session_row_ok r → session_row_ok (f r)) as Hfok.
  { intros r. unfold f. by destruct (_ || _). }
  split_and!.
  - apply Forall_fmap. eapply Forall_impl; [exact Hok | exact Hfok].
  - rewrite <- Hf. clear Hf Hl Hok Hre.
    induction (rs_rows st) as [|r l IH]; [done|]. cbn [map].
    rewrite !filter_cons, Hhf. case_decide; cbn; by rewrite IH.
  - by rewrite length_map.
Qed.

Lemma rowPass_census (events : list LogEvent) :
  rows_census (rs_rows (rowPass events))
    (count (λ e, is_sub e "ORDER_FILL") events)
    (count response_row_event events).
Proof.
  unfold rowPass.
  assert (rows_census
            (rs_rows {| rs_rows := []; rs_orderMap := []; rs_pending := [] |})
            0 0) as H0.
  { split_and!; [constructor | done | done]. }
  revert H0.
  generalize {| rs_rows := []; rs_orderMap := []; rs_pending := [] |}.
  assert (∀ f r st,
    rows_census (rs_rows st) f r →
    rows_census (rs_rows (fold_left rowStep events st))
      (f + count (λ e, is_sub e "ORDER_FILL") events)
      (r + count response_row_event events)) as Hgen.
  { induction events as [|e events IH]; intros f r st H; cbn [fold_left].
    - unfold count. cbn. by rewrite !Nat.add_0_r.
    - apply (rowStep_census _ e) in H. apply IH in H.
      rewrite !count_cons. by rewrite !Nat.add_assoc. }
  intros st H0. apply (Hgen 0 0 st H0).
Qed.

(** X16. The rows [extractOrdersBySession] returns for a session: a row with
    a fill time has status "partial" or "filled" and its three fill
    quantities are numbers, never NaN; a row without one has a truthy order
    id, a response status or "canceled" and no quantities.  There is exactly
    one row with a fill time per ORDER_FILL event of the session, whether or
    not the fill names a known order, and no more rows in all than fills and
    responses with an order id. *)
Theorem session_rows_shape (sessions : list StrategySession)
    (res : list SessionOrders) :
  extractOrdersBySession sessions = Ok res →
  Forall (λ o,
    let events := s_events (so_session o) in
    Forall session_row_ok (so_orders o)
    ∧ length (filter (λ r, has_fill r = true) (so_orders o))
      = count (λ e, is_sub e "ORDER_FILL") events
    ∧ (length (so_orders o)
       ≤ count (λ e, is_sub e "ORDER_FILL") events
         + count response_row_event events)%nat) res.
Proof.
  intros H%extractOrdersBySession_inv.
  induction H as [|s o A' res' (Hs & Hr & Ho) H IH]; constructor; [|done].
  cbv zeta. rewrite Hs, Ho.
  destruct (rowPass_census (s_events s)) as (Hok & Hf & Hl).
  rewrite sort_by_length. split_and!; [|  | done].
  - by rewrite sort_by_Permutation.
  - rewrite <- Hf. apply Permutation_length.
    by rewrite sort_by_Permutation.
Qed.

Lemma session_rows_shape_witness :
  ∃ res, extractOrdersBySession [fillFirstSession] = Ok res
    ∧ Forall (λ o,
        let events := s_events (so_session o) in
        Forall session_row_ok (so_orders o)
        ∧ length (filter (λ r, has_fill r = true) (so_orders o))
          = count (λ e, is_sub e "ORDER_FILL") events
        ∧ (length (so_orders o)
           ≤ count (λ e, is_sub e "ORDER_FILL") events
             + count response_row_event events)%nat) res.
Proof.
  destruct (extractOrdersBySession [fillFirstSession]) as [res|] eqn:H;
    [|by vm_compute in H].
  exists res. split; [done | exact (session_rows_shape _ res H)].
Defined.

Lemma count_le (p q : LogEvent → bool) (events : list LogEvent) :
  (∀ e, p e = true → q e = true) → (count p events ≤ count q events)%nat.
Proof.
  intros Hpq. induction events as [|e events IH]; [done|].
  rewrite !count_cons. specialize (Hpq e).
  destruct (p e), (q e); cbn; try lia. all: by specialize (Hpq eq_refl).
Qed.

Lemma count_ext_in (p q : LogEvent → bool) (events : list LogEvent) :
  Forall (λ e, p e = q e) events → count p events = count q events.
Proof.
  induction 1 as [|e events He H IH]; [done|].
  by rewrite !count_cons, He, IH.
Qed.

(** X17. In an entry of [extractOrdersBySession] the summary's [fills.total]
    never exceeds the number of rows with a fill time: the rows count every
    ORDER_FILL event, the summary only those that carry a category.  The two
    agree when every event of the session carries a category. *)
Theorem summary_fills_and_fill_rows (sessions : list StrategySession)
    (res : list SessionOrders) :
  extractOrdersBySession sessions = Ok res →
  Forall (λ o,
    (fills_total (fills (so_stats o))
     ≤ length (filter (λ r, has_fill r = true) (so_orders o)))%nat
    ∧ (Forall (λ e, is_Some (category e)) (s_events (so_session o)) →
       fills_total (fills (so_stats o))
       = length (filter (λ r, has_fill r = true) (so_orders o)))) res.
Proof.
  intros H%extractOrdersBySession_inv.
  induction H as [|s o A' res' (Hs & Hr & Ho) H IH]; constructor; [|done].
  rewrite Hs, Ho.
  destruct (rowPass_census (s_events s)) as (_ & Hf & _).
  assert (length (filter (λ r, has_fill r = true)
                    (sort_by row_time (rs_rows (rowPass (s_events s)))))
          = count (λ e, is_sub e "ORDER_FILL") (s_events s)) as ->.
  { rewrite <- Hf. apply Permutation_length. by rewrite sort_by_Permutation. }
  destruct (session_census s _ Hr) as (_ & _ & _ & -> & _). split.
  - apply count_le. intros e. unfold counted_fill, is_sub.
    by intros [_ ?]%andb_true_iff.
  - intros Hc. apply count_ext_in. eapply Forall_impl; [exact Hc|].
    intros e He. unfold counted_fill, is_sub. cbn beta.
    by rewrite (bool_decide_true _ He).
Qed.

Lemma summary_fills_and_fill_rows_witness :
  ∃ res, extractOrdersBySession [twoFillSession] = Ok res
    ∧ Forall (λ o,
        (fills_total (fills (so_stats o))
         ≤ length (filter (λ r, has_fill r = true) (so_orders o)))%nat
        ∧ (Forall (λ e, is_Some (category e)) (s_events (so_session o)) →
           fills_total (fills (so_stats o))
           = length (filter (λ r, has_fill r = true) (so_orders o)))) res.
Proof.
  destruct (extractOrdersBySession [twoFillSession]) as [res|] eqn:H;
    [|by vm_compute in H].
  exists res. split; [done | exact (summary_fills_and_fill_rows _ res H)].
Defined.

(** ** Fills, legs and pairs *)

Lemma step_fill_kinds e st st' :
  processEvent e st = Ok st' →
  fills_partial (fills (stats st'))
  = Nat.b2n (partial_fill e) + fills_partial (fills (stats st))
  ∧ fills_full (fills (stats st'))
    = Nat.b2n (full_fill e) + fills_full (fills (stats st)).
Proof.
  intros H. unfold partial_fill, full_fill.
  use_arm H CASE_ORDER_FILL "ORDER_FILL".
  - simplify_eq. unfold processOrderSubmit. by case_match.
  - by apply processOrderResponse_stats in H as (a & r & g & _ & _ & _ & _ & ->).
  - apply processOrderFill_inv in H as (b1 & b2 & _ & _ & ->).
    rewrite bool_decide_true by done. cbn [andb].
    cbn [fills set_fills recordFill fills_partial fills_full].
    rewrite msg_includes_includes by done.
    by destruct (_ || _).
  - simplify_eq/=. unfold processFastChaseEvent. by repeat case_match.
  - simplify_eq/=. unfold processOther. by repeat case_match.
Qed.

Lemma legsFilled_app (a b : JSMap PairInfo) :
  legsFilled (a ++ b) = legsFilled a + legsFilled b.
Proof.
  unfold legsFilled. induction a as [|x a IH]; cbn; [done|]. rewrite IH. lia.
Qed.

Lemma legsFilled_set (k : value) (p v : PairInfo) (pm : JSMap PairInfo) :
  Map_get k pm = Some p →
  legsFilled (Map_set k v pm) + Nat.b2n (usdtFilled p) + Nat.b2n (usdcFilled p)
  = legsFilled pm + Nat.b2n (usdtFilled v) + Nat.b2n (usdcFilled v).
Proof.
  unfold legsFilled. induction pm as [|[k' v'] pm IH]; [done|]. cbn.
  destruct (decide (k' = k)) as [->|].
  - intros [= ->]. cbn. lia.
  - intros H. cbn. specialize (IH H). lia.
Qed.

Lemma ensurePair_legs (id : value) (pm : JSMap PairInfo) :
  legsFilled (ensurePair id pm) = legsFilled pm
  ∧ (length (ensurePair id pm) ≤ S (length pm))%nat.
Proof.
  unfold ensurePair, Map_has. destruct (Map_get id pm) eqn:H; [split; lia|].
  rewrite Map_set_new by done. rewrite legsFilled_app, length_app. cbn. lia.
Qed.

Lemma Map_set_length_known {V} (k : value) (p v : V) (m : JSMap V) :
  Map_get k m = Some p → length (Map_set k v m) = length m.
Proof.
  induction m as [|[k' v'] m IH]; [done|]. cbn.
  destruct (decide (k' = k)); [done|]. intros H. cbn. by rewrite IH.
Qed.

Lemma correlateFill_legs e st st' :
  correlateFill e st = Ok st' →
  (legsFilled (pairMap st') ≤ S (legsFilled (pairMap st)))%nat
  ∧ (length (pairMap st') ≤ S (length (pairMap st)))%nat.
Proof.
  unfold correlateFill. intros H.
  destruct (truthy (field e "order_id")); [|simplify_eq; lia].
  destruct (Map_get _ (orderMap st)) as [o|]; [|simplify_eq; lia].
  destruct (truthy (oi_pairId o));
    [|simplify_eq; cbn [pairMap set_orderMap]; lia].
  destruct (Map_get (oi_pairId o) (ensurePair _ _)) as [pr|] eqn:Hpr; [|done].
  destruct (guarded_includes _ "USDT") as [b1|]; simpl in H; [|done].
  destruct (if b1 then Ok false else _) as [b2|]; simpl in H; [|done].
  simplify_eq/=.
  destruct (ensurePair_legs (oi_pairId o) (pairMap st)) as [Hl Hn].
  rewrite (Map_set_length_known _ pr) by done. split; [|done].
  pose proof (legsFilled_set _ _
    (if b1 then {| usdtFilled := true; usdcFilled := usdcFilled pr |}
     else if b2 then {| usdtFilled := usdtFilled pr; usdcFilled := true |}
     else pr) _ Hpr) as Hs.
  rewrite Hl in Hs.
  destruct b1, b2, pr as [[] []];
    cbn [usdtFilled usdcFilled Nat.b2n] in Hs |- *; lia.
Qed.

Lemma step_legs e st st' :
  processEvent e st = Ok st' →
  (legsFilled (pairMap st')
   ≤ Nat.b2n (guarded e "ORDER_FILL") + legsFilled (pairMap st))%nat
  ∧ (length (pairMap st')
     ≤ Nat.b2n (guarded e "ORDER_FILL" || pair_event e)
       + length (pairMap st))%nat.
Proof.
  intros H. unfold pair_event.
  rewrite (guarded_arm _ CASE_PARALLEL_ORDER "PARALLEL_ORDER" eq_refl).
  rewrite (guarded_arm _ CASE_PAIR_LINK "PAIR_LINK" eq_refl).
  use_arm H CASE_ORDER_FILL "ORDER_FILL"; try (cbn; lia).
  all: repeat match goal with
    | |- context [bool_decide (Some ?a = Some ?b)] =>
        first [ rewrite (bool_decide_true (Some a = Some b)) by done
              | rewrite (bool_decide_false (Some a = Some b)) by done ]
    end; cbn [Nat.b2n orb andb Nat.add].
  - simplify_eq. unfold processOrderSubmit.
    case_match; cbn [pairMap set_orderMap set_stats]; lia.
  - rewrite (processOrderResponse_pairMap _ _ _ H). lia.
  - unfold processOrderFill in H.
    destruct (val_includes (fill_symbol e) "USDT") as [b1|]; simpl in H;
      [|done].
    destruct (if b1 then Ok false else _) as [b2|]; simpl in H; [|done].
    apply correlateFill_legs in H. cbn [pairMap set_stats] in H. lia.
  - destruct (truthy (field e "pair_id")); simplify_eq;
      cbn [pairMap set_pairMap Nat.b2n orb andb Nat.add]; [|lia].
    destruct (ensurePair_legs (field e "pair_id") (pairMap st)). lia.
  - destruct (truthy (field e "pair_id")); simplify_eq;
      cbn [pairMap set_pairMap Nat.b2n orb andb Nat.add]; [|lia].
    destruct (ensurePair_legs (field e "pair_id") (pairMap st)). lia.
Qed.

Lemma processEvents_legs events st st' :
  processEvents events st = Ok st' →
  (legsFilled (pairMap st')
   ≤ count (λ e, guarded e "ORDER_FILL") events + legsFilled (pairMap st))%nat
  ∧ (length (pairMap st')
     ≤ count (λ e, guarded e "ORDER_FILL" || pair_event e) events
       + length (pairMap st))%nat.
Proof.
  revert st. induction events as [|e events IH]; intros st H.
  - simplify_eq/=. unfold count. cbn. lia.
  - cbn [processEvents] in H.
    destruct (processEvent e st) as [st1|] eqn:He; [|done].
    rewrite bind_Ok in H. apply IH in H. apply step_legs in He.
    rewrite !count_cons. lia.
Qed.

Lemma bothFilled_legs (pm : JSMap PairInfo) :
  (2 * length (filter bothFilled pm) ≤ legsFilled pm)%nat.
Proof.
  induction pm as [|[k p] pm IH]; [cbn; lia|]. rewrite filter_cons.
  change (legsFilled ((k, p) :: pm))
    with (Nat.b2n (usdtFilled p) + Nat.b2n (usdcFilled p) + legsFilled pm).
  case_decide as Hb; [|lia].
  destruct Hb as [H1 H2]. cbn in H1, H2. rewrite H1, H2.
  cbn [length Nat.b2n]. lia.
Qed.

(** X18. Partial and full fills are told apart by the message marker
    "Partial fill" or the payload's [fill_type]; a pair needs two counted
    fills to succeed, and a pair is attempted only on a fill or on a
    PARALLEL_ORDER or PAIR_LINK event that carries a pair id. *)
Theorem fills_legs_and_pairs (s : StrategySession) (r : SessionStats) :
  calculateSessionStats s = Ok r →
  fills_partial (fills r) = count partial_fill (s_events s)
  ∧ fills_full (fills r) = count full_fill (s_events s)
  ∧ (2 * succeeded (orderPairs r) ≤ fills_total (fills r))%nat
  ∧ (attempted (orderPairs r)
     ≤ count (λ e, guarded e "ORDER_FILL" || pair_event e) (s_events s))%nat.
Proof.
  intros Hr. pose proof Hr as (st & Hst & ->)%calculateSessionStats_inv.
  cbn [fills set_orderPairs orderPairs].
  destruct (fold_countPair (pairMap st) (orderPairs (stats st))) as [-> ->].
  destruct (processEvents_pairs _ _ _ Hst) as [-> _].
  destruct (processEvents_legs _ _ _ Hst) as [Hl Hn].
  destruct (processEvents_fills _ _ _ Hst) as [Hf _].
  pose proof (bothFilled_legs (pairMap st)) as Hb.
  split_and!.
  - rewrite (processEvents_count (λ x, fills_partial (fills x)) partial_fill
               (λ e st st' H, proj1 (step_fill_kinds e st st' H)) _ _ _ Hst).
    cbn. lia.
  - rewrite (processEvents_count (λ x, fills_full (fills x)) full_fill
               (λ e st st' H, proj2 (step_fill_kinds e st st' H)) _ _ _ Hst).
    cbn. lia.
  - rewrite Hf. cbn in *.
    assert (count (λ e, guarded e "ORDER_FILL") (s_events s)
            = length (filter (λ e, counted_fill e = true) (s_events s)))
      as <- by done.
    lia.
  - cbn in *. lia.
Qed.

Lemma fills_legs_and_pairs_witness :
  ∃ r, calculateSessionStats twoFillSession = Ok r
    ∧ fills_partial (fills r) = 1 ∧ fills_full (fills r) = 1.
Proof.
  destruct (calculateSessionStats twoFillSession) as [r|] eqn:H;
    [|by vm_compute in H].
  exists r. split; [done|].
  destruct (fills_legs_and_pairs twoFillSession r H) as (-> & -> & _).
  by vm_compute.
Defined.

(** * [formatDuration] *)



(** ** Legs are marked through the order table only *)

Lemma no_paired_order_get (om : JSMap OrderInfo) (k : value) (o : OrderInfo) :
  no_paired_order om → Map_get k om = Some o → truthy (oi_pairId o) = false.
Proof.
  intros H Hget%Map_get_elem_of. unfold no_paired_order in H.
  rewrite Forall_forall in H. by apply (H _ Hget).
Qed.

Lemma processOrderResponse_no_paired e st st' :
  processOrderResponse e st = Ok st' →
  no_paired_order (orderMap st) → no_paired_order (orderMap st').
Proof.
  unfold processOrderResponse. intros H Hom.
  destruct (truthy (field e "order_id")); [|by simplify_eq].
  destruct (Map_get _ (orderMap st)) as [o|] eqn:Hget.
  - pose proof (no_paired_order_get _ _ _ Hom Hget) as Ho.
    assert (∀ status, no_paired_order
              (Map_set (field e "order_id") (set_oi_status status o)
                 (orderMap st))) as Hset.
    { intros status. by apply Map_set_Forall. }
    destruct (_ || _); [simplify_eq; apply Hset|].
    destruct (msg_includes (message e) "Order rejected"); [|by simplify_eq].
    destruct (guarded_includes _ "GTX") as [b|]; [|done]. rewrite bind_Ok in H.
    repeat case_match; simplify_eq; apply Hset.
  - destruct (msg_includes (message e) "Order accepted"); [by simplify_eq|].
    destruct (msg_includes (message e) "Order rejected"); [|by simplify_eq].
    destruct (guarded_includes _ "GTX") as [b|]; [|done]. rewrite bind_Ok in H.
    repeat case_match; by simplify_eq.
Qed.

Lemma correlateFill_no_paired e st st' :
  correlateFill e st = Ok st' →
  no_paired_order (orderMap st) →
  no_paired_order (orderMap st') ∧ pairMap st' = pairMap st.
Proof.
  unfold correlateFill. intros H Hom.
  destruct (truthy (field e "order_id")); [|by simplify_eq].
  destruct (Map_get _ (orderMap st)) as [o|] eqn:Hget; [|by simplify_eq].
  rewrite (no_paired_order_get _ _ _ Hom Hget) in H. simplify_eq.
  split; [|done]. cbn [orderMap set_orderMap].
  apply Map_set_Forall; [|done]. cbn.
  apply (no_paired_order_get _ _ _ Hom Hget).
Qed.

Lemma step_no_paired e st st' :
  processEvent e st = Ok st' → submit_with_pair e = false →
  no_paired_order (orderMap st) →
  no_paired_order (orderMap st')
  ∧ legsFilled (pairMap st') = legsFilled (pairMap st).
Proof.
  intros H. unfold submit_with_pair.
  use_arm H CASE_ORDER_SUBMIT "ORDER_SUBMIT".
  - rewrite bool_decide_true by done. cbn [andb]. intros Hs Hom.
    simplify_eq. unfold processOrderSubmit.
    destruct (truthy (field e "order_id")); [|done]. cbn [andb] in Hs.
    split; [|done]. cbn [orderMap set_orderMap set_stats].
    by apply Map_set_Forall.
  - intros _ Hom. split; [by eapply processOrderResponse_no_paired|].
    by rewrite (processOrderResponse_pairMap _ _ _ H).
  - intros _ Hom. unfold processOrderFill in H.
    destruct (val_includes (fill_symbol e) "USDT") as [b1|]; simpl in H;
      [|done].
    destruct (if b1 then Ok false else _) as [b2|]; simpl in H; [|done].
    apply correlateFill_no_paired in H as [? ->]; done.
  - intros _ Hom. destruct (truthy (field e "pair_id")); simplify_eq; [|done].
    split; [done|]. apply ensurePair_legs.
  - intros _ Hom. destruct (truthy (field e "pair_id")); simplify_eq; [|done].
    split; [done|]. apply ensurePair_legs.
Qed.

Lemma processEvents_no_paired events st st' :
  processEvents events st = Ok st' → count submit_with_pair events = 0 →
  no_paired_order (orderMap st) →
  no_paired_order (orderMap st')
  ∧ legsFilled (pairMap st') = legsFilled (pairMap st).
Proof.
  revert st. induction events as [|e events IH]; intros st H Hc Hom.
  - by simplify_eq/=.
  - cbn [processEvents] in H.
    destruct (processEvent e st) as [st1|] eqn:He; [|done].
    rewrite bind_Ok in H. rewrite count_cons in Hc.
    destruct (submit_with_pair e) eqn:Hs; [done|].
    destruct (step_no_paired _ _ _ He Hs Hom) as [Hom1 <-].
    by apply IH.
Qed.

(** X20. A leg of a pair is marked through the order table only: in a
    session without an ORDER_SUBMIT that carries both an order id and a pair
    id, no pair succeeds, whatever PAIR_LINK, PARALLEL_ORDER and ORDER_FILL
    events it has. *)
Theorem no_pair_succeeds_without_submitted_pair_id (s : StrategySession)
    (r : SessionStats) :
  calculateSessionStats s = Ok r →
  count submit_with_pair (s_events s) = 0 →
  succeeded (orderPairs r) = 0.
Proof.
  intros (st & Hst & ->)%calculateSessionStats_inv Hc.
  cbn [set_orderPairs orderPairs].
  destruct (fold_countPair (pairMap st) (orderPairs (stats st))) as [_ ->].
  destruct (processEvents_pairs _ _ _ Hst) as [-> _].
  destruct (processEvents_no_paired _ _ _ Hst Hc) as [_ Hl]; [constructor|].
  pose proof (bothFilled_legs (pairMap st)) as Hb.
  rewrite Hl in Hb. cbn in *. lia.
Qed.

Lemma no_pair_succeeds_without_submitted_pair_id_witness :
  ∃ r, calculateSessionStats linkAndFillsSession = Ok r
    ∧ succeeded (orderPairs r) = 0.
Proof.
  destruct (calculateSessionStats linkAndFillsSession) as [r|] eqn:H;
    [|by vm_compute in H].
  exists r. split; [done|].
  apply (no_pair_succeeds_without_submitted_pair_id linkAndFillsSession r H).
  by vm_compute.
Defined.

(** ** ORDER_STATE in the per-session extraction *)





(** ** Relations between the counters, per session and in the aggregate *)

Lemma session_tallies (s : StrategySession) (r : SessionStats) :
  calculateSessionStats s = Ok r → tallies_consistent (s_events s) r.
Proof.
  intros (st & Hst & ->)%calculateSessionStats_inv. unfold tallies_consistent.
  cbn [fills orders set_orderPairs orderPairs].
  destruct (fold_countPair (pairMap st) (orderPairs (stats st))) as [-> ->].
  destruct (processEvents_pairs _ _ _ Hst) as [-> _].
  destruct (processEvents_legs _ _ _ Hst) as [Hl _].
  destruct (processEvents_fills _ _ _ Hst) as [Hf Hi].
  pose proof (bothFilled_legs (pairMap st)) as Hb.
  pose proof (length_filter bothFilled (pairMap st)) as Hle.
  apply processEvents_response_counters in Hst
    as (a & r & g & Ha & Hr & _ & Har & _).
  rewrite Ha, Hr.
  assert (count (λ e, guarded e "ORDER_FILL") (s_events s)
          = length (filter (λ e, counted_fill e = true) (s_events s)))
    as Hc by done.
  cbn in *. split_and!; [by apply Hi | lia | lia | lia].
Qed.

Lemma tallies_sum (e1 e2 : list LogEvent) (a b : SessionStats) :
  tallies_consistent e1 a → tallies_consistent e2 b →
  tallies_consistent (e1 ++ e2) (sumStats a b).
Proof.
  unfold tallies_consistent. intros (? & ? & ? & ?) (? & ? & ? & ?).
  rewrite count_app. cbn. lia.
Qed.

Lemma foldl_sumStats_tallies (sessions : list StrategySession)
    (rs : list SessionStats) (events : list LogEvent) (acc : SessionStats) :
  Forall2 (λ s r, calculateSessionStats s = Ok r) sessions rs →
  tallies_consistent events acc →
  tallies_consistent (events ++ allEvents sessions) (foldl sumStats acc rs).
Proof.
  intros H. revert events acc.
  induction H as [|s r0 sessions rs Hs H IH]; intros events acc Hacc.
  - cbn. by rewrite app_nil_r.
  - cbn [foldl]. unfold allEvents. cbn [map concat].
    rewrite app_assoc. apply IH. apply tallies_sum; [done|].
    by apply session_tallies.
Qed.

(** X22. The counters the dashboard shows stay consistent, for one session
    and for the aggregate over any sessions: every fill is counted as partial
    or as full, a succeeded pair was attempted and took two fills, and only
    responses that carry an order id are counted as accepted or rejected. *)
Theorem counters_stay_consistent (sessions : list StrategySession)
    (r : SessionStats) :
  calculateAggregateStats sessions = Ok r →
  fills_total (fills r) = fills_partial (fills r) + fills_full (fills r)
  ∧ (succeeded (orderPairs r) ≤ attempted (orderPairs r))%nat
  ∧ (2 * succeeded (orderPairs r) ≤ fills_total (fills r))%nat
  ∧ (orders_accepted (orders r) + orders_rejected (orders r)
     ≤ count response_with_id (allEvents sessions))%nat.
Proof.
  unfold calculateAggregateStats. rewrite aggregateFrom_each. intros H.
  destruct (eachSessionStats sessions) as [rs|] eqn:Hrs; [|done].
  rewrite bind_Ok in H. simplify_eq.
  apply eachSessionStats_Forall2 in Hrs.
  apply (foldl_sumStats_tallies sessions rs [] new_SessionStats Hrs).
  unfold tallies_consistent, count. cbn. lia.
Qed.

Lemma counters_stay_consistent_witness :
  ∃ r, calculateAggregateStats [twoFillSession; busySession] = Ok r
    ∧ fills_total (fills r) = fills_partial (fills r) + fills_full (fills r)
    ∧ fills_total (fills r) = 3.
Proof.
  destruct (calculateAggregateStats [twoFillSession; busySession])
    as [r|] eqn:H; [|by vm_compute in H].
  exists r. split; [done|].
  destruct (counters_stay_consistent _ r H) as (Ht & _).
  split; [done|]. vm_compute in H. by injection H as <-.
Defined.

(** ** One row per response in the cross-session extraction *)

Lemma map_alter_same {A B} (key : A → B) (f : A → A) (i : nat) (l : list A) :
  (∀ x, key (f x) = key x) → map key (alter f i l) = map key l.
Proof.
  intros H. revert i. induction l as [|x l IH]; intros [|i]; cbn; [done..| |].
  - by rewrite H.
  - f_equal. apply IH.
Qed.

Lemma detailStep_origin (e : LogEvent) (st : DetailState) :
  map row_origin (ds_orders (detailStep st e))
  = map row_origin (ds_orders st)
    ++ (if decide (gives_row e) then [response_origin e] else []).
Proof.
  destruct (decide (gives_row e)) as [[Hs Hid]|Hn].
  - rewrite detailStep_response by done. cbn [ds_orders].
    by rewrite map_app.
  - rewrite app_nil_r. unfold detailStep, is_sub.
    case_bool_decide as H1; [done|].
    case_bool_decide as H2.
    { destruct (truthy (field e "order_id")) eqn:Hid;
        [exfalso; apply Hn; by split | done]. }
    case_bool_decide; [|done].
    repeat case_match; cbn [ds_orders]; try done.
    by apply map_alter_same.
Qed.

(** X23. [extractOrderDetails] returns one row for every ORDER_RESPONSE that
    carries an order id, over all sessions, and no other row; the row keeps
    the order id, the symbol and the latency of its response, whatever fills
    follow. *)
Theorem one_row_per_response (sessions : list StrategySession) :
  map row_origin (extractOrderDetails sessions)
  ≡ₚ map response_origin (filter gives_row (allEvents sessions)).
Proof.
  unfold extractOrderDetails. rewrite sort_by_Permutation.
  rewrite detailPass_concat. fold (allEvents sessions).
  generalize (allEvents sessions). intros events.
  assert (∀ st,
    map row_origin (ds_orders (fold_left detailStep events st))
    = map row_origin (ds_orders st)
      ++ map response_origin (filter gives_row events)) as Hgen.
  { induction events as [|e events IH]; intros st; cbn [fold_left].
    - by rewrite app_nil_r.
    - rewrite IH, detailStep_origin, filter_cons.
      case_decide; [|by rewrite app_nil_r].
      by rewrite <- app_assoc. }
  by rewrite Hgen.
Qed.

(** ** Fill quantities *)





(** ** Where the pair id of a row comes from *)

Lemma pair_id_from_app (seen : list LogEvent) (e : LogEvent) (r : OrderDetail) :
  pair_id_from seen r → pair_id_from (seen ++ [e]) r.
Proof.
  intros [H|H]; [by left | right]. apply Exists_app. by left.
Qed.

Lemma rowStep_pair_ids (seen : list LogEvent) (e : LogEvent) (st : RowState) :
  Forall (pair_id_from seen) (rs_rows st) →
  Forall (pair_id_from (seen ++ [e])) (rs_rows (rowStep st e)).
Proof.
  intros H.
  assert (Forall (pair_id_from (seen ++ [e])) (rs_rows st)) as H'.
  { eapply Forall_impl; [exact H|]. intros r. apply pair_id_from_app. }
  clear H. unfold rowStep.
  destruct (is_sub e "ORDER_SUBMIT"); [done|].
  destruct (is_sub e "ORDER_RESPONSE").
  { destruct (negb _); [done|]. destruct (takePending _ _) as [si p].
    cbn [rs_rows]. apply Forall_app. split; [done|].
    constructor; [by left | done]. }
  destruct (is_sub e "ORDER_FILL").
  { cbn [rs_rows].
    rewrite removeAccepted_app_other by apply fill_row_not_accepted.
    apply Forall_app. split; [|constructor; [by left | done]].
    destruct (removeAccepted_inv (field e "order_id") (rs_rows st))
      as [->|(b & r & a & Hrows & _ & ->)]; [done|].
    rewrite Hrows in H'. apply Forall_app in H' as [Hb Ha].
    apply Forall_cons in Ha as [_ Ha]. apply Forall_app. by split. }
  assert (∀ status,
            Forall (pair_id_from (seen ++ [e]))
              (restatusAccepted (field e "order_id") status (rs_rows st)))
    as Hre.
  { intros status.
    destruct (restatusAccepted_inv (field e "order_id") status (rs_rows st))
      as [->|(b & r & a & Hrows & _ & ->)]; [done|].
    rewrite Hrows in H'. apply Forall_app in H' as [Hb Ha].
    apply Forall_cons in Ha as [Hr Ha]. apply Forall_app. split; [done|].
    by constructor. }
  destruct (is_sub e "ORDER_STATE").
  { destruct (truthy (field e "order_id")); [|done].
    destruct (Map_get _ _); [|done].
    destruct (msg_includes (message e) "GTX rejected"); [apply Hre|].
    destruct (msg_includes (message e) "canceled"); [apply Hre | done]. }
  destruct (is_sub e "PAIR_LINK") eqn:Hl; [|done]. cbn [rs_rows].
  apply Forall_fmap. eapply Forall_impl; [exact H'|].
  intros r Hr. cbn. destruct (_ || _) eqn:Hm; [|done].
  right. apply Exists_app. right. constructor.
  unfold links. cbn [orderId pairId set_pairId]. rewrite Hl, Hm.
  by rewrite bool_decide_true.
Qed.

Lemma rowPass_pair_ids (events : list LogEvent) :
  Forall (pair_id_from events) (rs_rows (rowPass events)).
Proof.
  unfold rowPass.
  assert (∀ seen st,
    Forall (pair_id_from seen) (rs_rows st) →
    Forall (pair_id_from (seen ++ events))
      (rs_rows (fold_left rowStep events st))) as Hgen.
  { induction events as [|e events IH]; intros seen st H; cbn [fold_left].
    - by rewrite app_nil_r.
    - apply (rowStep_pair_ids seen e) in H. apply IH in H.
      by rewrite <- app_assoc in H. }
  apply (Hgen [] _). constructor.
Qed.

(** X25. In the rows [extractOrdersBySession] returns, a pair id is never
    made up: a row either has none, or a PAIR_LINK event of its own session
    names the row's order id as its USDT or USDC leg and carries that pair
    id. *)
Theorem pair_ids_come_from_pair_links (sessions : list StrategySession)
    (res : list SessionOrders) :
  extractOrdersBySession sessions = Ok res →
  Forall (λ o, Forall (pair_id_from (s_events (so_session o))) (so_orders o))
    res.
Proof.
  intros H%extractOrdersBySession_inv.
  induction H as [|s o A' res' (Hs & Hr & Ho) H IH]; constructor; [|done].
  rewrite Hs, Ho, sort_by_Permutation. apply rowPass_pair_ids.
Qed.

Lemma pair_ids_come_from_pair_links_witness :
  ∃ res, extractOrdersBySession [linkedRowsSession] = Ok res
    ∧ Forall (λ o, Forall (pair_id_from (s_events (so_session o)))
                     (so_orders o)) res
    ∧ map (λ o, map pairId (so_orders o)) res = [[VStr "P1"; VStr "P1"]].
Proof.
  destruct (extractOrdersBySession [linkedRowsSession]) as [res|] eqn:H;
    [|by vm_compute in H].
  exists res. split; [done|].
  split; [exact (pair_ids_come_from_pair_links _ res H)|].
  vm_compute in H. by injection H as <-.
Defined.

(** * The formatters of the application *)

(** X26. [formatFileSize] shows a size below 1024 in bytes, below 1024 * 1024
    in KB and otherwise in MB, with one decimal that is off by at most half
    a tenth of the unit.  The rounding can reach the next unit: the KB form
    goes up to 1024.0. *)
Theorem formatFileSize_tenths (bytes : Z) :
  (0 ≤ bytes)%Z →
  ((bytes < 1024)%Z → formatFileSize bytes = pretty bytes +:+ " B")
  ∧ ((1024 ≤ bytes < 1048576)%Z →
     ∃ n : Z, (10 ≤ n ≤ 10240)%Z ∧ (Z.abs (1024 * n - 10 * bytes) ≤ 512)%Z
       ∧ formatFileSize bytes
         = (pretty (n / 10)%Z +:+ "." +:+ pretty (n mod 10)%Z) +:+ " KB")
  ∧ ((1048576 ≤ bytes)%Z →
     ∃ n : Z, (10 ≤ n)%Z ∧ (Z.abs (1048576 * n - 10 * bytes) ≤ 524288)%Z
       ∧ formatFileSize bytes
         = (pretty (n / 10)%Z +:+ "." +:+ pretty (n mod 10)%Z) +:+ " MB").
Proof.
  intros H0. unfold formatFileSize. split_and!.
  - intros H. apply Z.ltb_lt in H. by rewrite H.
  - intros [H1 H2]. apply Z.ltb_ge in H1. rewrite H1.
    change (1024 * 1024)%Z with 1048576%Z.
    apply Z.ltb_lt in H2 as H2'. rewrite H2'. apply Z.ltb_ge in H1.
    exists ((20 * bytes + 1024) / (2 * 1024))%Z. split; [|split; [|done]].
    + pose proof (Z.div_mod (20 * bytes + 1024) (2 * 1024) ltac:(lia)).
      pose proof (Z.mod_pos_bound (20 * bytes + 1024) (2 * 1024) ltac:(lia)).
      lia.
    + pose proof (Z.div_mod (20 * bytes + 1024) (2 * 1024) ltac:(lia)).
      pose proof (Z.mod_pos_bound (20 * bytes + 1024) (2 * 1024) ltac:(lia)).
      lia.
  - intros H1. change (1024 * 1024)%Z with 1048576%Z.
    assert ((bytes <? 1024)%Z = false) as -> by (apply Z.ltb_ge; lia).
    assert ((bytes <? 1048576)%Z = false) as -> by (apply Z.ltb_ge; lia).
    exists ((20 * bytes + 1048576) / (2 * 1048576))%Z.
    split; [|split; [|done]].
    + pose proof (Z.div_mod (20 * bytes + 1048576) (2 * 1048576) ltac:(lia)).
      pose proof (Z.mod_pos_bound (20 * bytes + 1048576) (2 * 1048576)
                    ltac:(lia)).
      lia.
    + pose proof (Z.div_mod (20 * bytes + 1048576) (2 * 1048576) ltac:(lia)).
      pose proof (Z.mod_pos_bound (20 * bytes + 1048576) (2 * 1048576)
                    ltac:(lia)).
      lia.
Qed.

Lemma formatFileSize_tenths_witness :
  (∃ n : Z, (10 ≤ n ≤ 10240)%Z ∧ (Z.abs (1024 * n - 10 * 1048575) ≤ 512)%Z
     ∧ formatFileSize 1048575
       = (pretty (n / 10)%Z +:+ "." +:+ pretty (n mod 10)%Z) +:+ " KB")
  ∧ formatFileSize 1048575 = "1024.0 KB"
  ∧ formatFileSize 1536 = "1.5 KB".
Proof.
  split; [|split; by vm_compute].
  apply (proj1 (proj2 (formatFileSize_tenths 1048575 ltac:(lia)))). lia.
Defined.

Lemma string_length_app (a b : string) :
  String.length (a +:+ b) = String.length a + String.length b.
Proof. induction a as [|c a IH]; simpl; [done | by f_equal]. Qed.

Lemma string_app_inj (a a' b b' : string) :
  String.length a = String.length a' → a +:+ b = a' +:+ b' → a = a' ∧ b = b'.
Proof.
  revert a'. induction a as [|c a IH]; intros [|c' a'] Hl H; try done.
  cbn in Hl, H. injection H as -> H. injection Hl as Hl.
  destruct (IH a' Hl H) as [-> ->]. done.
Qed.

Lemma two_digits_length (s : string) (n : N) :
  two_digits s = Some n → String.length s = 2.
Proof.
  destruct s as [|a [|b [|c s]]]; try done; cbn; by repeat case_match.
Qed.

Lemma pad_two_digits (n : N) : (n < 100)%N → two_digits (pad n 2) = Some n.
Proof.
  intros H.
  assert (forallb (λ k, bool_decide (two_digits (pad (N.of_nat k) 2)
                                     = Some (N.of_nat k))) (seq 0 100) = true)
    as Hall by by vm_compute.
  rewrite forallb_forall in Hall.
  specialize (Hall (N.to_nat n)). rewrite N2Nat.id in Hall.
  eapply bool_decide_eq_true_1, Hall, in_seq. lia.
Qed.

(** X27. [formatTime] shows a time of day as HH:MM:SS, eight characters with
    leading zeros, so that different times give different texts; none of
    them is the dash shown for a missing date. *)
Theorem formatTime_shape (d : Clock) :
  clock_valid d →
  String.length (formatTime (Some d)) = 8
  ∧ formatTime (Some d) ≠ formatTime None
  ∧ ∀ d', clock_valid d' →
      formatTime (Some d') = formatTime (Some d) → d' = d.
Proof.
  intros (Hh & Hm & Hs).
  pose proof (pad_two_digits _ (N.lt_trans _ 24 100 Hh eq_refl)) as Ph.
  pose proof (pad_two_digits _ (N.lt_trans _ 60 100 Hm eq_refl)) as Pm.
  pose proof (pad_two_digits _ (N.lt_trans _ 60 100 Hs eq_refl)) as Ps.
  pose proof (two_digits_length _ _ Ph) as Lh.
  pose proof (two_digits_length _ _ Pm) as Lm.
  pose proof (two_digits_length _ _ Ps) as Ls.
  assert (String.length (formatTime (Some d)) = 8) as Hlen.
  { cbn [formatTime]. rewrite !string_length_app, Lh, Lm, Ls. done. }
  split_and!; [done | |].
  - intros H. rewrite H in Hlen. done.
  - intros d' (Hh' & Hm' & Hs') H.
    pose proof (pad_two_digits _ (N.lt_trans _ 24 100 Hh' eq_refl)) as Ph'.
    pose proof (pad_two_digits _ (N.lt_trans _ 60 100 Hm' eq_refl)) as Pm'.
    pose proof (pad_two_digits _ (N.lt_trans _ 60 100 Hs' eq_refl)) as Ps'.
    cbn [formatTime] in H.
    apply string_app_inj in H as [E1 H];
      [|by rewrite (two_digits_length _ _ Ph'), Lh].
    apply (string_app_inj ":" ":") in H as [_ H]; [|done].
    apply string_app_inj in H as [E2 H];
      [|by rewrite (two_digits_length _ _ Pm'), Lm].
    apply (string_app_inj ":" ":") in H as [_ E3]; [|done].
    rewrite E1 in Ph'. rewrite E2 in Pm'. rewrite E3 in Ps'.
    destruct d, d'. cbn in *. congruence.
Qed.

Lemma formatTime_shape_witness :
  String.length
    (formatTime (Some {| getHours := 9; getMinutes := 5; getSeconds := 30 |}))
  = 8
  ∧ formatTime (Some {| getHours := 9; getMinutes := 5; getSeconds := 30 |})
    = "09:05:30".
Proof.
  split; [|by vm_compute].
  apply (formatTime_shape {| getHours := 9; getMinutes := 5; getSeconds := 30 |}).
  unfold clock_valid. cbn. lia.
Defined.
